(** * RaihanAi-Imagen: the image-generation page of [src/index.tsx]

  A shallow embedding of the page script: its module-level variables,
  the part of the DOM it reads and writes, the browser's [localStorage]
  and the calls it makes to the outside world (the image-generation
  API, the AI Studio key dialog, the console).  Every function of the
  script is a function on that state; [async] functions and the
  [try]/[catch]/[finally] blocks run in a small state-and-exception
  monad. *)

From Stdlib Require Import ZArith NArith List Ascii String Bool Lia.
From Stdlib Require Import DecimalZ.
From stdpp Require Import base gmap strings list.

Local Open Scope N_scope.
#[local] Set Warnings "-clear-no-such-hyp".

(** ** JavaScript strings

  A JavaScript string is a sequence of UTF-16 code units. *)

Module JsStrings.

Definition JsString := list N.

(** Source literals are ASCII; [lit] gives their code units. *)
Definition lit (s : string) : JsString :=
  map N_of_ascii (list_ascii_of_string s).
Arguments lit : simpl never.

(** The double-quote character, U+0022. *)
Definition dquote : JsString := [34].

(** ECMAScript [WhiteSpace] and [LineTerminator] code points, the ones
    [String.prototype.trim] strips. *)
Definition is_white_space (c : N) : bool :=
  (c =? 9) || (c =? 10) || (c =? 11) || (c =? 12) || (c =? 13)
  || (c =? 32) || (c =? 160) || (c =? 5760)
  || ((8192 <=? c) && (c <=? 8202))
  || (c =? 8232) || (c =? 8233) || (c =? 8239) || (c =? 8287)
  || (c =? 12288) || (c =? 65279).

Fixpoint trimStart (s : JsString) : JsString :=
  match s with
  | c :: r => if is_white_space c then trimStart r else s
  | [] => []
  end.

Definition trimEnd (s : JsString) : JsString := rev (trimStart (rev s)).

(** [s.trim()] *)
Definition trim (s : JsString) : JsString := trimEnd (trimStart s).

(** ToBoolean on a string: the empty string is the only falsy one. *)
Definition truthy (s : JsString) : bool :=
  match s with [] => false | _ :: _ => true end.

(** ToBoolean on [string | undefined] and [string | null]. *)
Definition truthy_opt (o : option JsString) : bool :=
  match o with Some s => truthy s | None => false end.

Fixpoint startsWith (s pat : JsString) : bool :=
  match pat, s with
  | [], _ => true
  | p :: pat', c :: s' => (c =? p) && startsWith s' pat'
  | _ :: _, [] => false
  end.

(** [s.includes(pat)] *)
Fixpoint includes (s pat : JsString) : bool :=
  startsWith s pat ||
  match s with
  | [] => false
  | _ :: s' => includes s' pat
  end.

(** Whitespace-only strings, the empty one included. *)
Definition blank (s : JsString) : bool := forallb is_white_space s.

End JsStrings.
Export JsStrings.

(** ** Data model *)

(** [imageSize: '1K' | '2K' | '4K'] *)
Inductive ImageSize := Size1K | Size2K | Size4K.

(** [aspectRatio: '1:1' | '3:4' | '4:3' | '9:16' | '16:9'] *)
Inductive AspectRatio := Ratio1x1 | Ratio3x4 | Ratio4x3 | Ratio9x16 | Ratio16x9.

(** An element of [imageHistory]: [{ url, prompt, timestamp }].
    [timestamp] holds a [Date.now()] value, an integral number of
    milliseconds. *)
Record HistoryEntry := mkEntry {
  url : JsString;
  entry_prompt : JsString;
  timestamp : Z
}.

(** What the script throws and catches: an [Error] with its [message],
    or some value that is not an instance of [Error]. *)
Inductive Thrown :=
| ErrorObject (message : JsString)
| NonErrorValue.

(** One element of [response.generatedImages]; the only member the
    script reads is [image.imageBytes]. *)
Record GeneratedImage := mkImage { imageBytes : JsString }.

(** The request [generateImage] sends: the key handed to the client,
    the model name, the prompt and the two [config] members. *)
Record ImagesRequest := mkRequest {
  req_apiKey : JsString;
  req_model : JsString;
  req_prompt : JsString;
  req_imageSize : ImageSize;
  req_aspectRatio : AspectRatio
}.

(** How [await ai.models.generateImages(...)] settles: with a response,
    whose [generatedImages] may be [undefined], or with a rejection. *)
Inductive ApiOutcome :=
| ApiResolved (generatedImages : option (list GeneratedImage))
| ApiRejected (e : Thrown).

(** How [await window.aistudio.openSelectKey()] settles. *)
Inductive DialogOutcome := DialogResolved | DialogRejected (e : Thrown).

(** [interface AIStudio { openSelectKey: () => Promise<void> }] *)
Record AIStudio := mkAIStudio { openSelectKey : DialogOutcome }.

(** [element.style.display]: untouched by the script (the style sheet
    decides), ['none'] or ['block']. *)
Inductive Display := DisplayUnset | DisplayNone | DisplayBlock.

(** The status line: the script writes it through [innerText] or, in
    [showStatusError], through [innerHTML]. *)
Inductive StatusContent :=
| InnerText (text : JsString)
| InnerHTML (html : JsString).

(** One [div] that [renderImageHistory] appends to the history
    container: the thumbnail's [src] and [alt], the paragraph's
    [innerText], and the arguments its Download button passes to
    [handleDownload]. *)
Record HistoryItemEl := mkItemEl {
  img_src : JsString;
  img_alt : JsString;
  p_innerText : JsString;
  download_url : JsString;
  download_filename : JsString
}.

(** The [disabled] property of the eight controls that
    [setControlsDisabled] writes. *)
Record Controls := mkControls {
  generateButton_disabled : bool;
  promptEl_disabled : bool;
  imageSizeSelectEl_disabled : bool;
  aspectRatioSelectEl_disabled : bool;
  downloadButton_disabled : bool;
  clearHistoryButton_disabled : bool;
  useCustomApiKeyCheckbox_disabled : bool;
  apiKeyInputEl_disabled : bool
}.

(** What the script does to the outside world, in the order it does it. *)
Inductive Effect :=
| GenerateImagesCall (req : ImagesRequest)
| OpenSelectKeyCall
| ApiKeyInputFocus
| AnchorClick (href download : JsString)
| ConsoleError (label : JsString).

(** The page: the script's [let] variables, the DOM properties it
    touches, [localStorage], and the log of its outside calls. *)
Record State := mkState {
  prompt : JsString;
  imageSize : ImageSize;
  aspectRatio : AspectRatio;
  downloadLink : option JsString;
  imageHistory : list HistoryEntry;
  userApiKey : JsString;
  useCustomApiKey : bool;
  statusEl : StatusContent;
  outputImage_src : JsString;
  outputImage_display : Display;
  downloadButton_display : Display;
  loadingSpinner_display : Display;
  imageHistorySection_display : Display;
  historyContainerEl : list HistoryItemEl;
  controls : Controls;
  apiKeyInputEl_value : JsString;
  useCustomApiKeyCheckbox_checked : bool;
  apiKeyInputEl_classList : gset string;
  localStorage : gmap string JsString;
  effects : list Effect
}.

(** The hosting environment: [process.env.API_KEY], [window.aistudio],
    the remote image API as a function of the request, the clock,
    whether [localStorage] has room for a given content ([setItem]
    throws when it has not), and the engine's Unicode lower-casing,
    [String.prototype.toLowerCase]. *)
Record Env := mkEnv {
  API_KEY : option JsString;
  aistudio : option AIStudio;
  generateImages : ImagesRequest -> ApiOutcome;
  Date_now : Z;
  storage_has_room : gmap string JsString -> bool;
  toLowerCase : JsString -> JsString
}.

(** *** Field updates *)

Definition set_prompt (v : JsString) (s : State) : State :=
  mkState
    v (imageSize s) (aspectRatio s) (downloadLink s) (imageHistory s)
    (userApiKey s) (useCustomApiKey s) (statusEl s) (outputImage_src s)
    (outputImage_display s) (downloadButton_display s)
    (loadingSpinner_display s) (imageHistorySection_display s)
    (historyContainerEl s) (controls s) (apiKeyInputEl_value s)
    (useCustomApiKeyCheckbox_checked s) (apiKeyInputEl_classList s)
    (localStorage s) (effects s).

Definition set_imageSize (v : ImageSize) (s : State) : State :=
  mkState
    (prompt s) v (aspectRatio s) (downloadLink s) (imageHistory s)
    (userApiKey s) (useCustomApiKey s) (statusEl s) (outputImage_src s)
    (outputImage_display s) (downloadButton_display s)
    (loadingSpinner_display s) (imageHistorySection_display s)
    (historyContainerEl s) (controls s) (apiKeyInputEl_value s)
    (useCustomApiKeyCheckbox_checked s) (apiKeyInputEl_classList s)
    (localStorage s) (effects s).

Definition set_aspectRatio (v : AspectRatio) (s : State) : State :=
  mkState
    (prompt s) (imageSize s) v (downloadLink s) (imageHistory s)
    (userApiKey s) (useCustomApiKey s) (statusEl s) (outputImage_src s)
    (outputImage_display s) (downloadButton_display s)
    (loadingSpinner_display s) (imageHistorySection_display s)
    (historyContainerEl s) (controls s) (apiKeyInputEl_value s)
    (useCustomApiKeyCheckbox_checked s) (apiKeyInputEl_classList s)
    (localStorage s) (effects s).

Definition set_downloadLink (v : option JsString) (s : State) : State :=
  mkState
    (prompt s) (imageSize s) (aspectRatio s) v (imageHistory s)
    (userApiKey s) (useCustomApiKey s) (statusEl s) (outputImage_src s)
    (outputImage_display s) (downloadButton_display s)
    (loadingSpinner_display s) (imageHistorySection_display s)
    (historyContainerEl s) (controls s) (apiKeyInputEl_value s)
    (useCustomApiKeyCheckbox_checked s) (apiKeyInputEl_classList s)
    (localStorage s) (effects s).

Definition set_imageHistory (v : list HistoryEntry) (s : State) : State :=
  mkState
    (prompt s) (imageSize s) (aspectRatio s) (downloadLink s) v
    (userApiKey s) (useCustomApiKey s) (statusEl s) (outputImage_src s)
    (outputImage_display s) (downloadButton_display s)
    (loadingSpinner_display s) (imageHistorySection_display s)
    (historyContainerEl s) (controls s) (apiKeyInputEl_value s)
    (useCustomApiKeyCheckbox_checked s) (apiKeyInputEl_classList s)
    (localStorage s) (effects s).

Definition set_userApiKey (v : JsString) (s : State) : State :=
  mkState
    (prompt s) (imageSize s) (aspectRatio s) (downloadLink s)
    (imageHistory s) v (useCustomApiKey s) (statusEl s) (outputImage_src s)
    (outputImage_display s) (downloadButton_display s)
    (loadingSpinner_display s) (imageHistorySection_display s)
    (historyContainerEl s) (controls s) (apiKeyInputEl_value s)
    (useCustomApiKeyCheckbox_checked s) (apiKeyInputEl_classList s)
    (localStorage s) (effects s).

Definition set_useCustomApiKey (v : bool) (s : State) : State :=
  mkState
    (prompt s) (imageSize s) (aspectRatio s) (downloadLink s)
    (imageHistory s) (userApiKey s) v (statusEl s) (outputImage_src s)
    (outputImage_display s) (downloadButton_display s)
    (loadingSpinner_display s) (imageHistorySection_display s)
    (historyContainerEl s) (controls s) (apiKeyInputEl_value s)
    (useCustomApiKeyCheckbox_checked s) (apiKeyInputEl_classList s)
    (localStorage s) (effects s).

Definition set_statusEl (v : StatusContent) (s : State) : State :=
  mkState
    (prompt s) (imageSize s) (aspectRatio s) (downloadLink s)
    (imageHistory s) (userApiKey s) (useCustomApiKey s) v
    (outputImage_src s) (outputImage_display s) (downloadButton_display s)
    (loadingSpinner_display s) (imageHistorySection_display s)
    (historyContainerEl s) (controls s) (apiKeyInputEl_value s)
    (useCustomApiKeyCheckbox_checked s) (apiKeyInputEl_classList s)
    (localStorage s) (effects s).

Definition set_outputImage_src (v : JsString) (s : State) : State :=
  mkState
    (prompt s) (imageSize s) (aspectRatio s) (downloadLink s)
    (imageHistory s) (userApiKey s) (useCustomApiKey s) (statusEl s) v
    (outputImage_display s) (downloadButton_display s)
    (loadingSpinner_display s) (imageHistorySection_display s)
    (historyContainerEl s) (controls s) (apiKeyInputEl_value s)
    (useCustomApiKeyCheckbox_checked s) (apiKeyInputEl_classList s)
    (localStorage s) (effects s).

Definition set_outputImage_display (v : Display) (s : State) : State :=
  mkState
    (prompt s) (imageSize s) (aspectRatio s) (downloadLink s)
    (imageHistory s) (userApiKey s) (useCustomApiKey s) (statusEl s)
    (outputImage_src s) v (downloadButton_display s)
    (loadingSpinner_display s) (imageHistorySection_display s)
    (historyContainerEl s) (controls s) (apiKeyInputEl_value s)
    (useCustomApiKeyCheckbox_checked s) (apiKeyInputEl_classList s)
    (localStorage s) (effects s).

Definition set_downloadButton_display (v : Display) (s : State) : State :=
  mkState
    (prompt s) (imageSize s) (aspectRatio s) (downloadLink s)
    (imageHistory s) (userApiKey s) (useCustomApiKey s) (statusEl s)
    (outputImage_src s) (outputImage_display s) v
    (loadingSpinner_display s) (imageHistorySection_display s)
    (historyContainerEl s) (controls s) (apiKeyInputEl_value s)
    (useCustomApiKeyCheckbox_checked s) (apiKeyInputEl_classList s)
    (localStorage s) (effects s).

Definition set_loadingSpinner_display (v : Display) (s : State) : State :=
  mkState
    (prompt s) (imageSize s) (aspectRatio s) (downloadLink s)
    (imageHistory s) (userApiKey s) (useCustomApiKey s) (statusEl s)
    (outputImage_src s) (outputImage_display s) (downloadButton_display s)
    v (imageHistorySection_display s) (historyContainerEl s) (controls s)
    (apiKeyInputEl_value s) (useCustomApiKeyCheckbox_checked s)
    (apiKeyInputEl_classList s) (localStorage s) (effects s).

Definition set_imageHistorySection_display (v : Display) (s : State) : State :=
  mkState
    (prompt s) (imageSize s) (aspectRatio s) (downloadLink s)
    (imageHistory s) (userApiKey s) (useCustomApiKey s) (statusEl s)
    (outputImage_src s) (outputImage_display s) (downloadButton_display s)
    (loadingSpinner_display s) v (historyContainerEl s) (controls s)
    (apiKeyInputEl_value s) (useCustomApiKeyCheckbox_checked s)
    (apiKeyInputEl_classList s) (localStorage s) (effects s).

Definition set_historyContainerEl (v : list HistoryItemEl) (s : State) : State :=
  mkState
    (prompt s) (imageSize s) (aspectRatio s) (downloadLink s)
    (imageHistory s) (userApiKey s) (useCustomApiKey s) (statusEl s)
    (outputImage_src s) (outputImage_display s) (downloadButton_display s)
    (loadingSpinner_display s) (imageHistorySection_display s) v
    (controls s) (apiKeyInputEl_value s)
    (useCustomApiKeyCheckbox_checked s) (apiKeyInputEl_classList s)
    (localStorage s) (effects s).

Definition set_controls (v : Controls) (s : State) : State :=
  mkState
    (prompt s) (imageSize s) (aspectRatio s) (downloadLink s)
    (imageHistory s) (userApiKey s) (useCustomApiKey s) (statusEl s)
    (outputImage_src s) (outputImage_display s) (downloadButton_display s)
    (loadingSpinner_display s) (imageHistorySection_display s)
    (historyContainerEl s) v (apiKeyInputEl_value s)
    (useCustomApiKeyCheckbox_checked s) (apiKeyInputEl_classList s)
    (localStorage s) (effects s).

Definition set_apiKeyInputEl_value (v : JsString) (s : State) : State :=
  mkState
    (prompt s) (imageSize s) (aspectRatio s) (downloadLink s)
    (imageHistory s) (userApiKey s) (useCustomApiKey s) (statusEl s)
    (outputImage_src s) (outputImage_display s) (downloadButton_display s)
    (loadingSpinner_display s) (imageHistorySection_display s)
    (historyContainerEl s) (controls s) v
    (useCustomApiKeyCheckbox_checked s) (apiKeyInputEl_classList s)
    (localStorage s) (effects s).

Definition set_useCustomApiKeyCheckbox_checked (v : bool) (s : State) : State :=
  mkState
    (prompt s) (imageSize s) (aspectRatio s) (downloadLink s)
    (imageHistory s) (userApiKey s) (useCustomApiKey s) (statusEl s)
    (outputImage_src s) (outputImage_display s) (downloadButton_display s)
    (loadingSpinner_display s) (imageHistorySection_display s)
    (historyContainerEl s) (controls s) (apiKeyInputEl_value s) v
    (apiKeyInputEl_classList s) (localStorage s) (effects s).

Definition set_apiKeyInputEl_classList (v : gset string) (s : State) : State :=
  mkState
    (prompt s) (imageSize s) (aspectRatio s) (downloadLink s)
    (imageHistory s) (userApiKey s) (useCustomApiKey s) (statusEl s)
    (outputImage_src s) (outputImage_display s) (downloadButton_display s)
    (loadingSpinner_display s) (imageHistorySection_display s)
    (historyContainerEl s) (controls s) (apiKeyInputEl_value s)
    (useCustomApiKeyCheckbox_checked s) v (localStorage s) (effects s).

Definition set_localStorage (v : gmap string JsString) (s : State) : State :=
  mkState
    (prompt s) (imageSize s) (aspectRatio s) (downloadLink s)
    (imageHistory s) (userApiKey s) (useCustomApiKey s) (statusEl s)
    (outputImage_src s) (outputImage_display s) (downloadButton_display s)
    (loadingSpinner_display s) (imageHistorySection_display s)
    (historyContainerEl s) (controls s) (apiKeyInputEl_value s)
    (useCustomApiKeyCheckbox_checked s) (apiKeyInputEl_classList s) v
    (effects s).

Definition set_effects (v : list Effect) (s : State) : State :=
  mkState
    (prompt s) (imageSize s) (aspectRatio s) (downloadLink s)
    (imageHistory s) (userApiKey s) (useCustomApiKey s) (statusEl s)
    (outputImage_src s) (outputImage_display s) (downloadButton_display s)
    (loadingSpinner_display s) (imageHistorySection_display s)
    (historyContainerEl s) (controls s) (apiKeyInputEl_value s)
    (useCustomApiKeyCheckbox_checked s) (apiKeyInputEl_classList s)
    (localStorage s) v.

Definition set_apiKeyInputEl_disabled (v : bool) (c : Controls) : Controls :=
  mkControls
  (generateButton_disabled c) (promptEl_disabled c)
  (imageSizeSelectEl_disabled c) (aspectRatioSelectEl_disabled c)
  (downloadButton_disabled c) (clearHistoryButton_disabled c)
  (useCustomApiKeyCheckbox_disabled c) v.

(** ** Numbers and JSON text

    [Number::toString] on an integral value below 10^21 in magnitude,
    as every time value is: its decimal digits, with a leading minus
    sign when negative. *)

Fixpoint uint_digits (d : Decimal.uint) : JsString :=
  match d with
  | Decimal.Nil => []
  | Decimal.D0 r => 48 :: uint_digits r
  | Decimal.D1 r => 49 :: uint_digits r
  | Decimal.D2 r => 50 :: uint_digits r
  | Decimal.D3 r => 51 :: uint_digits r
  | Decimal.D4 r => 52 :: uint_digits r
  | Decimal.D5 r => 53 :: uint_digits r
  | Decimal.D6 r => 54 :: uint_digits r
  | Decimal.D7 r => 55 :: uint_digits r
  | Decimal.D8 r => 56 :: uint_digits r
  | Decimal.D9 r => 57 :: uint_digits r
  end.

Definition Number_toString (z : Z) : JsString :=
  match Z.to_int z with
  | Decimal.Pos d => uint_digits d
  | Decimal.Neg d => 45 :: uint_digits d
  end.

(** Lower-case hexadecimal digit of a value below 16. *)
Definition hex_digit (d : N) : N := if d <? 10 then 48 + d else 87 + d.

(** [UnicodeEscape(C)]: a backslash, [u], and four hexadecimal digits. *)
Definition unicode_escape (c : N) : JsString :=
  [92; 117; hex_digit (c / 4096 mod 16); hex_digit (c / 256 mod 16);
   hex_digit (c / 16 mod 16); hex_digit (c mod 16)].

Definition is_high_surrogate (c : N) : bool := (55296 <=? c) && (c <=? 56319).
Definition is_low_surrogate (c : N) : bool := (56320 <=? c) && (c <=? 57343).

(** One code point that is not part of a surrogate pair, as
    [QuoteJSONString] writes it. *)
Definition quote_unit (c : N) : JsString :=
  if c =? 8 then [92; 98]
  else if c =? 9 then [92; 116]
  else if c =? 10 then [92; 110]
  else if c =? 12 then [92; 102]
  else if c =? 13 then [92; 114]
  else if c =? 34 then [92; 34]
  else if c =? 92 then [92; 92]
  else if (c <? 32) || is_high_surrogate c || is_low_surrogate c
       then unicode_escape c
  else [c].

(** The body of [QuoteJSONString]: the string is read code point by code
    point, so a high surrogate followed by a low one is copied as it is
    and a lone surrogate is escaped. *)
Fixpoint quote_chars (s : JsString) : JsString :=
  match s with
  | [] => []
  | c :: r =>
      match r with
      | d :: r' =>
          if is_high_surrogate c && is_low_surrogate d
          then c :: d :: quote_chars r'
          else quote_unit c ++ quote_chars r
      | [] => quote_unit c
      end
  end.

Definition QuoteJSONString (s : JsString) : JsString :=
  34 :: quote_chars s ++ [34].

(** [JSON.stringify] of one history entry: its three properties in the
    order the object literal of [addImageToHistory] creates them. *)
Definition stringify_entry (e : HistoryEntry) : JsString :=
  lit "{" ++ QuoteJSONString (lit "url") ++ lit ":" ++ QuoteJSONString (url e)
  ++ lit "," ++ QuoteJSONString (lit "prompt") ++ lit ":"
  ++ QuoteJSONString (entry_prompt e)
  ++ lit "," ++ QuoteJSONString (lit "timestamp") ++ lit ":"
  ++ Number_toString (timestamp e) ++ lit "}".

Fixpoint stringify_entries (h : list HistoryEntry) : JsString :=
  match h with
  | [] => []
  | [e] => stringify_entry e
  | e :: h' => stringify_entry e ++ lit "," ++ stringify_entries h'
  end.

(** [JSON.stringify(imageHistory)] *)
Definition JSON_stringify_history (h : list HistoryEntry) : JsString :=
  lit "[" ++ stringify_entries h ++ lit "]".

(** [JSON.stringify(useCustomApiKey)] *)
Definition JSON_stringify_bool (b : bool) : JsString :=
  if b then lit "true" else lit "false".

(** *** [JSON.parse]

    The syntax tree of a JSON text.  A number keeps its literal; an
    object keeps its members as written. *)
#[warnings="-register-all"]
Inductive Json :=
| JNull
| JBool (b : bool)
| JNumber (literal : JsString)
| JString (s : JsString)
| JArray (elements : list Json)
| JObject (members : list (JsString * Json)).

(** Outcome of a parsing function that recurses on a bound [fuel]. *)
Inductive Parse (A : Type) :=
| Parsed (a : A) (rest : JsString)
| SyntaxError
| OutOfFuel.
Arguments Parsed {A} a rest.
Arguments SyntaxError {A}.
Arguments OutOfFuel {A}.

(** JSON white space: tab, line feed, carriage return, space. *)
Definition is_json_ws (c : N) : bool :=
  (c =? 9) || (c =? 10) || (c =? 13) || (c =? 32).

Fixpoint skip_ws (s : JsString) : JsString :=
  match s with
  | c :: r => if is_json_ws c then skip_ws r else s
  | [] => []
  end.

Definition is_digit (c : N) : bool := (48 <=? c) && (c <=? 57).

(** The longest prefix of digits, and what follows it. *)
Fixpoint span_digits (s : JsString) : JsString * JsString :=
  match s with
  | c :: r =>
      if is_digit c
      then let '(ds, r') := span_digits r in (c :: ds, r')
      else ([], s)
  | [] => ([], [])
  end.

Definition hex_value (c : N) : option N :=
  if is_digit c then Some (c - 48)
  else if (97 <=? c) && (c <=? 102) then Some (c - 87)
  else if (65 <=? c) && (c <=? 70) then Some (c - 55)
  else None.

Definition hex4_value (a b c d : N) : option N :=
  match hex_value a, hex_value b, hex_value c, hex_value d with
  | Some x, Some y, Some z, Some w => Some (x * 4096 + y * 256 + z * 16 + w)
  | _, _, _, _ => None
  end.

(** The characters of a JSON string after its opening quote, up to and
    including the closing one. *)
Fixpoint parse_string_body (s : JsString) : option (JsString * JsString) :=
  match s with
  | [] => None
  | c :: r =>
      if c =? 34 then Some ([], r)
      else if c =? 92 then
        match r with
        | [] => None
        | e :: r1 =>
            let simple (u : N) :=
              match parse_string_body r1 with
              | Some (str, rest) => Some (u :: str, rest)
              | None => None
              end in
            if e =? 34 then simple 34
            else if e =? 92 then simple 92
            else if e =? 47 then simple 47
            else if e =? 98 then simple 8
            else if e =? 102 then simple 12
            else if e =? 110 then simple 10
            else if e =? 114 then simple 13
            else if e =? 116 then simple 9
            else if e =? 117 then
              match r1 with
              | h1 :: h2 :: h3 :: h4 :: r2 =>
                  match hex4_value h1 h2 h3 h4 with
                  | Some u =>
                      match parse_string_body r2 with
                      | Some (str, rest) => Some (u :: str, rest)
                      | None => None
                      end
                  | None => None
                  end
              | _ => None
              end
            else None
        end
      else if c <? 32 then None
      else
        match parse_string_body r with
        | Some (str, rest) => Some (c :: str, rest)
        | None => None
        end
  end.

(** A JSON number literal: an optional minus sign, an integer part
    without superfluous leading zero, an optional fraction and an
    optional exponent. *)
Definition lex_int_part (s : JsString) : option (JsString * JsString) :=
  match s with
  | c :: r =>
      if c =? 48 then Some ([48], r)
      else if is_digit c
           then let '(ds, r') := span_digits r in Some (c :: ds, r')
           else None
  | [] => None
  end.

Definition lex_frac_part (s : JsString) : option (JsString * JsString) :=
  match s with
  | 46 :: r =>
      match span_digits r with
      | ([], _) => None
      | (ds, r') => Some (46 :: ds, r')
      end
  | _ => Some ([], s)
  end.

Definition lex_exp_part (s : JsString) : option (JsString * JsString) :=
  match s with
  | c :: r =>
      if (c =? 101) || (c =? 69) then
        let '(sign, r1) :=
          match r with
          | 43 :: r1 => ([43], r1)
          | 45 :: r1 => ([45], r1)
          | _ => ([], r)
          end in
        match span_digits r1 with
        | ([], _) => None
        | (ds, r') => Some (c :: sign ++ ds, r')
        end
      else Some ([], s)
  | [] => Some ([], [])
  end.

Definition lex_number (s : JsString) : option (JsString * JsString) :=
  let '(sign, s1) :=
    match s with
    | 45 :: r => ([45], r)
    | _ => ([], s)
    end in
  match lex_int_part s1 with
  | Some (ip, s2) =>
      match lex_frac_part s2 with
      | Some (fp, s3) =>
          match lex_exp_part s3 with
          | Some (ep, s4) => Some (sign ++ ip ++ fp ++ ep, s4)
          | None => None
          end
      | None => None
      end
  | None => None
  end.

Definition parse_map {A B : Type} (f : A -> B) (p : Parse A) : Parse B :=
  match p with
  | Parsed a rest => Parsed (f a) rest
  | SyntaxError => SyntaxError
  | OutOfFuel => OutOfFuel
  end.

(** A JSON value at the head of [s] (white space already skipped), the
    elements of an array after its opening bracket, and the members of
    an object after its opening brace. *)
Fixpoint parse_value (fuel : nat) (s : JsString) : Parse Json :=
  match fuel with
  | O => OutOfFuel
  | S fuel' =>
      match s with
      | [] => SyntaxError
      | c :: r =>
          if c =? 34 then
            match parse_string_body r with
            | Some (str, rest) => Parsed (JString str) rest
            | None => SyntaxError
            end
          else if c =? 91 then
            match skip_ws r with
            | [] => SyntaxError
            | d :: rest =>
                if d =? 93 then Parsed (JArray []) rest
                else parse_map JArray (parse_elements fuel' (d :: rest))
            end
          else if c =? 123 then
            match skip_ws r with
            | [] => SyntaxError
            | d :: rest =>
                if d =? 125 then Parsed (JObject []) rest
                else parse_map JObject (parse_members fuel' (d :: rest))
            end
          else if startsWith s (lit "null") then Parsed JNull (drop 4 s)
          else if startsWith s (lit "true") then Parsed (JBool true) (drop 4 s)
          else if startsWith s (lit "false")
               then Parsed (JBool false) (drop 5 s)
          else
            match lex_number s with
            | Some (literal, rest) => Parsed (JNumber literal) rest
            | None => SyntaxError
            end
      end
  end
with parse_elements (fuel : nat) (s : JsString) : Parse (list Json) :=
  match fuel with
  | O => OutOfFuel
  | S fuel' =>
      match parse_value fuel' s with
      | Parsed v r =>
          match skip_ws r with
          | [] => SyntaxError
          | d :: rest =>
              if d =? 44
              then parse_map (cons v) (parse_elements fuel' (skip_ws rest))
              else if d =? 93 then Parsed [v] rest
              else SyntaxError
          end
      | SyntaxError => SyntaxError
      | OutOfFuel => OutOfFuel
      end
  end
with parse_members (fuel : nat) (s : JsString)
  : Parse (list (JsString * Json)) :=
  match fuel with
  | O => OutOfFuel
  | S fuel' =>
      match s with
      | [] => SyntaxError
      | c :: r =>
          if c =? 34 then
            match parse_string_body r with
            | Some (key, r1) =>
                match skip_ws r1 with
                | [] => SyntaxError
                | d :: r2 =>
                    if d =? 58 then
                      match parse_value fuel' (skip_ws r2) with
                      | Parsed v r3 =>
                          match skip_ws r3 with
                          | [] => SyntaxError
                          | d' :: r4 =>
                              if d' =? 44
                              then parse_map (cons (key, v))
                                     (parse_members fuel' (skip_ws r4))
                              else if d' =? 125 then Parsed [(key, v)] r4
                              else SyntaxError
                          end
                      | SyntaxError => SyntaxError
                      | OutOfFuel => OutOfFuel
                      end
                    else SyntaxError
                end
            | None => SyntaxError
            end
          else SyntaxError
      end
  end.

(** [JSON.parse(text)]: one value between optional white space; [None]
    stands for the [SyntaxError] it throws.  Two units of fuel for each
    character are enough for every text. *)
Definition JSON_parse (text : JsString) : option Json :=
  match parse_value (2 * length text + 2) (skip_ws text) with
  | Parsed v rest =>
      match skip_ws rest with
      | [] => Some v
      | _ :: _ => None
      end
  | SyntaxError => None
  | OutOfFuel => None
  end.

(** *** From a parsed text to the script's typed variables

    [JSON.parse] returns [any]; the script assigns the result to
    [imageHistory] and [useCustomApiKey] unchecked.  The functions below
    read a syntax tree of the shape [JSON.stringify] gives a value of the
    declared type, and give [None] for every other tree: the typed
    variables of this model cannot hold what the script would then
    hold. *)

Fixpoint digits_uint (s : JsString) : option Decimal.uint :=
  match s with
  | [] => Some Decimal.Nil
  | c :: r =>
      match digits_uint r with
      | Some d =>
          if c =? 48 then Some (Decimal.D0 d)
          else if c =? 49 then Some (Decimal.D1 d)
          else if c =? 50 then Some (Decimal.D2 d)
          else if c =? 51 then Some (Decimal.D3 d)
          else if c =? 52 then Some (Decimal.D4 d)
          else if c =? 53 then Some (Decimal.D5 d)
          else if c =? 54 then Some (Decimal.D6 d)
          else if c =? 55 then Some (Decimal.D7 d)
          else if c =? 56 then Some (Decimal.D8 d)
          else if c =? 57 then Some (Decimal.D9 d)
          else None
      | None => None
      end
  end.

(** A literal made of an optional minus sign and digits, as a decimal
    number. *)
Definition literal_int (literal : JsString) : option Decimal.int :=
  match literal with
  | 45 :: ds => Decimal.Neg <$> digits_uint ds
  | ds => Decimal.Pos <$> digits_uint ds
  end.

(** The integer a number literal denotes, when the literal is the one
    [Number_toString] writes for it. *)
Definition as_integer (literal : JsString) : option Z :=
  match literal_int literal with
  | Some i =>
      if decide (Number_toString (Z.of_int i) = literal)
      then Some (Z.of_int i) else None
  | None => None
  end.

Definition as_entry (v : Json) : option HistoryEntry :=
  match v with
  | JObject [(k1, JString u); (k2, JString p); (k3, JNumber n)] =>
      if decide (k1 = lit "url" ∧ k2 = lit "prompt" ∧ k3 = lit "timestamp")
      then match as_integer n with
           | Some z => Some (mkEntry u p z)
           | None => None
           end
      else None
  | _ => None
  end.

Definition as_history (v : Json) : option (list HistoryEntry) :=
  match v with
  | JArray vs => mapM as_entry vs
  | _ => None
  end.

Definition as_bool (v : Json) : option bool :=
  match v with
  | JBool b => Some b
  | _ => None
  end.

(** ** The script monad

    A statement runs on the page and completes normally or throws. *)

Inductive Completion (A : Type) :=
| Normal (a : A)
| Throw (e : Thrown).
Arguments Normal {A} a.
Arguments Throw {A} e.

Definition Script (A : Type) : Type := State -> Completion A * State.

#[global] Instance script_ret : MRet Script :=
  fun A a s => (Normal a, s).

#[global] Instance script_bind : MBind Script :=
  fun A B k m s =>
    match m s with
    | (Normal a, s') => k a s'
    | (Throw e, s') => (Throw e, s')
    end.

Definition modify (f : State -> State) : Script unit :=
  fun s => (Normal tt, f s).

Definition throw {A : Type} (e : Thrown) : Script A :=
  fun s => (Throw e, s).

(** [try { body } catch (e) { handler e }] *)
Definition try_catch {A : Type} (body : Script A) (handler : Thrown -> Script A)
  : Script A :=
  fun s =>
    match body s with
    | (Normal a, s') => (Normal a, s')
    | (Throw e, s') => handler e s'
    end.

(** [try { body } finally { cleanup }]: the cleanup runs on both
    completions and keeps the body's completion unless it throws. *)
Definition try_finally {A : Type} (body : Script A) (cleanup : Script unit)
  : Script A :=
  fun s =>
    match body s with
    | (c, s') =>
        match cleanup s' with
        | (Normal _, s'') => (c, s'')
        | (Throw e, s'') => (Throw e, s'')
        end
    end.

(** The page a statement leaves behind. *)
Definition exec {A : Type} (m : Script A) (s : State) : State := snd (m s).

Definition emit (e : Effect) (s : State) : State :=
  set_effects (effects s ++ [e]) s.

(** ** The script *)

Section Page.

Context (env : Env).

Definition IMAGE_HISTORY_KEY : string := "imagen_image_history".
Definition CUSTOM_API_KEY_STORAGE_KEY : string := "imagen_custom_api_key".
Definition USE_CUSTOM_KEY_STORAGE_KEY : string := "imagen_use_custom_api_key".

(** The two classes that mark the key input as invalid. *)
Definition highlight : gset string := {[ "border-red-500"; "ring-red-500" ]}.

(** [localStorage.setItem(key, value)] *)
Definition localStorage_setItem (key : string) (value : JsString)
  : Script unit :=
  fun s =>
    let store := <[key := value]> (localStorage s) in
    if storage_has_room env store
    then (Normal tt, set_localStorage store s)
    else (Throw (ErrorObject (lit "QuotaExceededError")), s).

(** [function showStatusError(message)] *)
Definition showStatusError (message : JsString) (s : State) : State :=
  set_statusEl
    (InnerHTML (lit "<span class=" ++ dquote ++ lit "text-red-400" ++ dquote
                ++ lit ">" ++ message ++ lit "</span>")) s.

(** [async function openApiKeyDialog()] *)
Definition openApiKeyDialog : Script unit :=
  match aistudio env with
  | Some studio =>
      modify (emit OpenSelectKeyCall);;
      match openSelectKey studio with
      | DialogResolved => mret tt
      | DialogRejected e => throw e
      end
  | None =>
      modify (showStatusError (lit "API key selection is not available. Please configure the API_KEY environment variable."))
  end.

(** [async function generateImage(prompt, apiKey, size, aspectRatio)] *)
Definition generateImage (prompt apiKey : JsString) (size : ImageSize)
  (aspectRatio : AspectRatio) : Script unit :=
  let request :=
    mkRequest apiKey (lit "imagen-4.0-generate-001") prompt size aspectRatio in
  modify (emit (GenerateImagesCall request));;
  match generateImages env request with
  | ApiRejected e => throw e
  | ApiResolved images =>
      match images with
      | None | Some [] =>
          throw (ErrorObject
            (lit "No images were generated. The prompt may have been blocked."))
      | Some (first :: _) =>
          let base64ImageBytes := imageBytes first in
          let imageUrl := lit "data:image/jpeg;base64," ++ base64ImageBytes in
          modify (set_outputImage_src imageUrl);;
          modify (set_outputImage_display DisplayBlock);;
          modify (set_downloadButton_display DisplayBlock);;
          modify (set_downloadLink (Some imageUrl))
      end
  end.

(** *** History management *)

(** [function saveHistory()] *)
Definition saveHistory (s : State) : State :=
  exec
    (try_catch
       (localStorage_setItem IMAGE_HISTORY_KEY
          (JSON_stringify_history (imageHistory s)))
       (fun _ =>
          modify (emit (ConsoleError
            (lit "Failed to save image history to local storage:")))))
    s.

(** [function loadHistory()].  [None]: the stored text is JSON, but not
    the JSON of a list of entries as [JSON.stringify] writes them.  The
    script then goes on with a value that [imageHistory], a list of
    entries here, cannot hold, and the model does not follow it: see
    [history_text_typed]. *)
Definition loadHistory (s : State) : option State :=
  match localStorage s !! IMAGE_HISTORY_KEY with
  | Some storedHistory =>
      if truthy storedHistory then
        match JSON_parse storedHistory with
        | Some v =>
            match as_history v with
            | Some h => Some (set_imageHistory h s)
            | None => None
            end
        | None =>
            Some (set_imageHistory []
                    (emit (ConsoleError
                       (lit "Failed to load image history from local storage:"))
                       s))
        end
      else Some s
  | None => Some s
  end.

(** The element one turn of the loop of [renderImageHistory] builds. *)
Definition history_item (item : HistoryEntry) : HistoryItemEl :=
  {| img_src := url item;
     img_alt := entry_prompt item;
     p_innerText := entry_prompt item;
     download_url := url item;
     download_filename :=
       lit "generated-image-" ++ Number_toString (timestamp item)
       ++ lit ".jpeg" |}.

(** [for (let i = imageHistory.length - 1; i >= 0; i--)], with [k] one
    above the loop variable. *)
Fixpoint render_loop (k : nat) (s : State) : State :=
  match k with
  | O => s
  | S i =>
      match imageHistory s !! i with
      | Some item =>
          render_loop i
            (set_historyContainerEl
               (historyContainerEl s ++ [history_item item]) s)
      | None => render_loop i s
      end
  end.

(** [function renderImageHistory()] *)
Definition renderImageHistory (s : State) : State :=
  let s := set_historyContainerEl [] s in
  if (length (imageHistory s) =? 0)%nat
  then set_imageHistorySection_display DisplayNone s
  else render_loop (length (imageHistory s))
         (set_imageHistorySection_display DisplayBlock s).

(** [function addImageToHistory(url, prompt)] *)
Definition addImageToHistory (url prompt : JsString) (s : State) : State :=
  let s := set_imageHistory
             (imageHistory s ++ [mkEntry url prompt (Date_now env)]) s in
  let s := saveHistory s in
  renderImageHistory s.

(** [function clearImageHistory()] *)
Definition clearImageHistory (s : State) : State :=
  let s := set_imageHistory [] s in
  let s := saveHistory s in
  renderImageHistory s.

(** *** Custom API key management *)

(** [function saveCustomApiKeySettings()] *)
Definition saveCustomApiKeySettings (s : State) : State :=
  exec
    (try_catch
       (localStorage_setItem CUSTOM_API_KEY_STORAGE_KEY (userApiKey s);;
        localStorage_setItem USE_CUSTOM_KEY_STORAGE_KEY
          (JSON_stringify_bool (useCustomApiKey s)))
       (fun _ =>
          modify (emit (ConsoleError
            (lit "Failed to save custom API key settings to local storage:")))))
    s.

(** [function loadCustomApiKeySettings()].  [None]: the stored flag is
    JSON, but not a boolean.  The script then goes on with a value that
    [useCustomApiKey], a boolean here, cannot hold, and the model does
    not follow it: see [toggle_text_typed]. *)
Definition loadCustomApiKeySettings (s : State) : option State :=
  let s :=
    match localStorage s !! CUSTOM_API_KEY_STORAGE_KEY with
    | Some storedCustomKey =>
        if truthy storedCustomKey
        then set_apiKeyInputEl_value storedCustomKey
               (set_userApiKey storedCustomKey s)
        else s
    | None => s
    end in
  match localStorage s !! USE_CUSTOM_KEY_STORAGE_KEY with
  | Some storedUseCustomKey =>
      match JSON_parse storedUseCustomKey with
      | Some v =>
          match as_bool v with
          | Some b =>
              let s := set_useCustomApiKey b s in
              let s := set_useCustomApiKeyCheckbox_checked (useCustomApiKey s) s in
              Some (set_controls
                      (set_apiKeyInputEl_disabled (negb (useCustomApiKey s))
                         (controls s)) s)
          | None => None
          end
      | None =>
          let s := emit (ConsoleError
            (lit "Failed to load custom API key settings from local storage:")) s in
          let s := set_userApiKey [] s in
          let s := set_useCustomApiKey false s in
          let s := set_apiKeyInputEl_value [] s in
          let s := set_useCustomApiKeyCheckbox_checked false s in
          Some (set_controls (set_apiKeyInputEl_disabled true (controls s)) s)
      end
  | None =>
      Some (set_controls (set_apiKeyInputEl_disabled true (controls s)) s)
  end.

(** *** Functions *)

(** [function setControlsDisabled(disabled)] *)
Definition setControlsDisabled (disabled : bool) (s : State) : State :=
  let s :=
    set_controls
      {| generateButton_disabled := disabled;
         promptEl_disabled := disabled;
         imageSizeSelectEl_disabled := disabled;
         aspectRatioSelectEl_disabled := disabled;
         downloadButton_disabled := disabled;
         clearHistoryButton_disabled := disabled;
         useCustomApiKeyCheckbox_disabled := disabled;
         apiKeyInputEl_disabled := disabled || negb (useCustomApiKey s) |} s in
  if disabled
  then set_loadingSpinner_display DisplayBlock s
  else set_loadingSpinner_display DisplayNone s.

(** [function handleDownload(url, filename = 'generated-image.jpeg')]:
    the anchor it creates is removed again after the click. *)
Definition handleDownload (url filename : JsString) (s : State) : State :=
  if truthy url
  then emit (AnchorClick url filename) s
  else showStatusError (lit "No image available for download.") s.

(** [apiKeyInputEl.focus()] followed by
    [apiKeyInputEl.classList.add('border-red-500', 'ring-red-500')].
    The call to [focus] is logged; what the browser does with it is not
    part of the script. *)
Definition focus_and_highlight (s : State) : State :=
  let s := emit ApiKeyInputFocus s in
  set_apiKeyInputEl_classList (apiKeyInputEl_classList s ∪ highlight) s.

(** [apiKeyInputEl.classList.remove('border-red-500', 'ring-red-500')] *)
Definition clear_highlight (s : State) : State :=
  set_apiKeyInputEl_classList (apiKeyInputEl_classList s ∖ highlight) s.

(** The opening of [generate]: which key the attempt uses, and whether
    it is the custom one ([activeApiKey], [isUsingCustomKey]). *)
Definition resolveActiveKey (s : State) : option JsString * bool :=
  if useCustomApiKey s && truthy (trim (userApiKey s))
  then (Some (trim (userApiKey s)), true)
  else (API_KEY env, false).

(** What the [catch] block of [generate] makes of the error message:
    [userFriendlyMessage] and [shouldOpenDialog]. *)
Definition classify (errorMessage : JsString) (isUsingCustomKey : bool)
  : JsString * bool :=
  if includes errorMessage (lit "You exceeded your current quota") then
    (lit "Quota exceeded. Please check your billing details on Google AI Studio.",
     true)
  else if includes errorMessage (lit "Requested entity was not found.") then
    (lit "Model not found. This can be caused by an invalid API key or permission issues. Please check your API key.",
     true)
  else if includes errorMessage (lit "API_KEY_INVALID")
          || includes errorMessage (lit "API key not valid")
          || includes (toLowerCase env errorMessage) (lit "permission denied")
  then
    (if isUsingCustomKey
     then lit "The custom API key you provided is invalid or lacks necessary permissions. Please check the key in the input field."
     else lit "The API key managed by AI Studio is invalid or lacks necessary permissions. Please use the "
          ++ dquote ++ lit "Add your API Key" ++ dquote
          ++ lit " button to select a valid key.",
     true)
  else (lit "Error: " ++ errorMessage, false).

(** The statements of [generate] between the key check and the [try]:
    the page as it is when the request goes out. *)
Definition begin_request (s : State) : State :=
  let s := set_statusEl (InnerText (lit "Generating image...")) s in
  let s := set_outputImage_display DisplayNone s in
  let s := set_downloadButton_display DisplayNone s in
  let s := set_downloadLink None s in
  setControlsDisabled true s.

(** [e instanceof Error ? e.message : 'An unknown error occurred.'] *)
Definition error_message (e : Thrown) : JsString :=
  match e with
  | ErrorObject message => message
  | NonErrorValue => lit "An unknown error occurred."
  end.

(** The [catch] block of [generate]. *)
Definition on_generation_error (isUsingCustomKey : bool) (e : Thrown)
  : Script unit :=
  modify (emit (ConsoleError (lit "Image generation failed:")));;
  let errorMessage := error_message e in
  let '(userFriendlyMessage, shouldOpenDialog) :=
    classify errorMessage isUsingCustomKey in
  modify (showStatusError userFriendlyMessage);;
  if shouldOpenDialog && negb isUsingCustomKey then openApiKeyDialog
  else if isUsingCustomKey then modify focus_and_highlight
  else mret tt.

(** The branch of [generate] taken when no key is available. *)
Definition no_credential (isUsingCustomKey : bool) : Script unit :=
  modify (showStatusError
    (lit "No API key configured. Please enter your API key or use the "
     ++ dquote ++ lit "Add your API Key" ++ dquote ++ lit " button."));;
  if negb isUsingCustomKey then openApiKeyDialog
  else modify focus_and_highlight.

(** The [try] block of [generate] with its [catch] block. *)
Definition attempt (key : JsString) (isUsingCustomKey : bool) : Script unit :=
  fun s =>
  try_catch
    (generateImage (prompt s) key (imageSize s) (aspectRatio s);;
     modify (set_statusEl (InnerText (lit "Image generated successfully."))))
    (on_generation_error isUsingCustomKey) s.

(** The [try]/[catch]/[finally] statement of [generate]. *)
Definition request (key : JsString) (isUsingCustomKey : bool) : Script unit :=
  try_finally (attempt key isUsingCustomKey)
    (modify (setControlsDisabled false)).

(** [async function generate()] *)
Definition generate : Script unit :=
  fun s =>
  let '(activeApiKey, isUsingCustomKey) := resolveActiveKey s in
  match activeApiKey with
  | Some key =>
      if negb (truthy key) then no_credential isUsingCustomKey s
      else
        (modify clear_highlight;;
         modify begin_request;;
         request key isUsingCustomKey) s
  | None => no_credential isUsingCustomKey s
  end.

(** *** Event listeners *)

(** [promptEl] on [input], with the value the field holds. *)
Definition promptEl_input (value : JsString) (s : State) : State :=
  set_prompt value s.

(** [imageSizeSelectEl] on [change] *)
Definition imageSizeSelectEl_change (value : ImageSize) (s : State) : State :=
  set_imageSize value s.

(** [aspectRatioSelectEl] on [change] *)
Definition aspectRatioSelectEl_change (value : AspectRatio) (s : State)
  : State :=
  set_aspectRatio value s.

(** [generateButton] on [click] *)
Definition generateButton_click (s : State) : State :=
  if negb (truthy (trim (prompt s)))
  then showStatusError (lit "Please enter a prompt to generate an image.") s
  else exec generate s.

(** [downloadButton] on [click] *)
Definition downloadButton_click (s : State) : State :=
  match downloadLink s with
  | Some link =>
      if truthy link
      then handleDownload link (lit "generated-image.jpeg") s
      else showStatusError (lit "No image available for download.") s
  | None => showStatusError (lit "No image available for download.") s
  end.

(** [clearHistoryButton] on [click] *)
Definition clearHistoryButton_click (s : State) : State :=
  let s := clearImageHistory s in
  showStatusError (lit "Image history cleared.") s.

(** [apiKeyInputEl] on [input], with the value the field holds. *)
Definition apiKeyInputEl_input (value : JsString) (s : State) : State :=
  let s := set_apiKeyInputEl_value value s in
  let s := set_userApiKey (apiKeyInputEl_value s) s in
  let s := saveCustomApiKeySettings s in
  clear_highlight s.

(** [useCustomApiKeyCheckbox] on [change], with its new [checked]. *)
Definition useCustomApiKeyCheckbox_change (checked : bool) (s : State)
  : State :=
  let s := set_useCustomApiKeyCheckbox_checked checked s in
  let s := set_useCustomApiKey (useCustomApiKeyCheckbox_checked s) s in
  let s := set_controls
             (set_apiKeyInputEl_disabled (negb (useCustomApiKey s))
                (controls s)) s in
  let s := saveCustomApiKeySettings s in
  clear_highlight s.

(** *** Page load *)

(** The page before the script's last three lines run: every variable
    at its initialiser, the DOM as the document declares it, and the
    [localStorage] the browser kept from earlier sessions. *)
Definition fresh_page (store : gmap string JsString) : State :=
  {| prompt := [];
     imageSize := Size1K;
     aspectRatio := Ratio1x1;
     downloadLink := None;
     imageHistory := [];
     userApiKey := [];
     useCustomApiKey := false;
     statusEl := InnerText [];
     outputImage_src := [];
     outputImage_display := DisplayUnset;
     downloadButton_display := DisplayUnset;
     loadingSpinner_display := DisplayUnset;
     imageHistorySection_display := DisplayUnset;
     historyContainerEl := [];
     controls := mkControls false false false false false false false false;
     apiKeyInputEl_value := [];
     useCustomApiKeyCheckbox_checked := false;
     apiKeyInputEl_classList := ∅;
     localStorage := store;
     effects := [] |}.

(** [loadHistory(); renderImageHistory(); loadCustomApiKeySettings();]
    The page after load, over the stores of [typed_store]; [None] over
    every other store. *)
Definition initialize (store : gmap string JsString) : option State :=
  s ← loadHistory (fresh_page store);
  loadCustomApiKeySettings (renderImageHistory s).

(** *** The page as a state machine *)

(** What the user can do to the page. *)
Inductive Event :=
| PromptTyped (value : JsString)
| ImageSizeChosen (value : ImageSize)
| AspectRatioChosen (value : AspectRatio)
| GenerateClicked
| DownloadClicked
| HistoryDownloadClicked (i : nat)
| ClearHistoryClicked
| ApiKeyTyped (value : JsString)
| UseCustomKeyToggled (checked : bool).

(** The listener that answers an event.  The Download button of the
    [i]-th rendered history item calls [handleDownload] with the
    arguments fixed when the item was rendered. *)
Definition handle (ev : Event) (s : State) : State :=
  match ev with
  | PromptTyped value => promptEl_input value s
  | ImageSizeChosen value => imageSizeSelectEl_change value s
  | AspectRatioChosen value => aspectRatioSelectEl_change value s
  | GenerateClicked => generateButton_click s
  | DownloadClicked => downloadButton_click s
  | HistoryDownloadClicked i =>
      match historyContainerEl s !! i with
      | Some item => handleDownload (download_url item) (download_filename item) s
      | None => s
      end
  | ClearHistoryClicked => clearHistoryButton_click s
  | ApiKeyTyped value => apiKeyInputEl_input value s
  | UseCustomKeyToggled checked => useCustomApiKeyCheckbox_change checked s
  end.

End Page.

(** *** Sessions

    [loadHistory] and [loadCustomApiKeySettings] follow the script on
    the stores below, and only on them: on a store that holds JSON of
    another shape the script goes on with values that the typed
    variables of this model cannot hold, and the properties of whole
    sessions say nothing of such a session. *)

(** The stored history text is absent, empty, not JSON, or the JSON of
    a list of entries of the declared type. *)
Definition history_text_typed (stored : option JsString) : bool :=
  match stored with
  | Some text =>
      if truthy text then
        match JSON_parse text with
        | Some v => match as_history v with Some _ => true | None => false end
        | None => true
        end
      else true
  | None => true
  end.

(** The stored flag text is absent, not JSON, or a JSON boolean. *)
Definition toggle_text_typed (stored : option JsString) : bool :=
  match stored with
  | Some text =>
      match JSON_parse text with
      | Some v => match as_bool v with Some _ => true | None => false end
      | None => true
      end
  | None => true
  end.

Definition typed_store (store : gmap string JsString) : bool :=
  history_text_typed (store !! IMAGE_HISTORY_KEY)
  && toggle_text_typed (store !! USE_CUSTOM_KEY_STORAGE_KEY).

(** The page after the events of a session, each handled in the
    environment it finds. *)
Fixpoint run (events : list (Env * Event)) (s : State) : State :=
  match events with
  | [] => s
  | (env, ev) :: rest => run rest (handle env ev s)
  end.

(** ** Vocabulary of the properties *)

(** The controls whose [disabled] property [setControlsDisabled] writes. *)
Inductive Control :=
| GenerateButton
| PromptInput
| ImageSizeSelect
| AspectRatioSelect
| DownloadButton
| ClearHistoryButton
| UseCustomKeyCheckbox
| ApiKeyInput.

Definition disabled (c : Control) (s : State) : bool :=
  match c with
  | GenerateButton => generateButton_disabled (controls s)
  | PromptInput => promptEl_disabled (controls s)
  | ImageSizeSelect => imageSizeSelectEl_disabled (controls s)
  | AspectRatioSelect => aspectRatioSelectEl_disabled (controls s)
  | DownloadButton => downloadButton_disabled (controls s)
  | ClearHistoryButton => clearHistoryButton_disabled (controls s)
  | UseCustomKeyCheckbox => useCustomApiKeyCheckbox_disabled (controls s)
  | ApiKeyInput => apiKeyInputEl_disabled (controls s)
  end.


(** The key input carries both highlight classes. *)
Definition highlighted (s : State) : Prop :=
  highlight ⊆ apiKeyInputEl_classList s.

(** The request an attempt on page [s] sends with key [key]. *)
Definition request_of (key : JsString) (s : State) : ImagesRequest :=
  mkRequest key (lit "imagen-4.0-generate-001") (prompt s) (imageSize s)
    (aspectRatio s).

(** The remote API returned at least one image. *)
Definition has_image (o : ApiOutcome) : bool :=
  match o with
  | ApiResolved (Some (_ :: _)) => true
  | _ => false
  end.

(** What [showStatusError] leaves in the status line. *)
Definition error_status (message : JsString) : StatusContent :=
  InnerHTML (lit "<span class=" ++ dquote ++ lit "text-red-400" ++ dquote
             ++ lit ">" ++ message ++ lit "</span>").

Definition EMPTY_PROMPT_MESSAGE : JsString :=
  lit "Please enter a prompt to generate an image.".
Definition NO_KEY_MESSAGE : JsString :=
  lit "No API key configured. Please enter your API key or use the "
  ++ dquote ++ lit "Add your API Key" ++ dquote ++ lit " button.".
Definition QUOTA_PATTERN : JsString := lit "You exceeded your current quota".
Definition QUOTA_MESSAGE : JsString :=
  lit "Quota exceeded. Please check your billing details on Google AI Studio.".
Definition NO_DIALOG_MESSAGE : JsString :=
  lit "API key selection is not available. Please configure the API_KEY environment variable.".
Definition NO_IMAGES_MESSAGE : JsString :=
  lit "No images were generated. The prompt may have been blocked.".

(** The syntax tree of the text [JSON.stringify] writes for an entry. *)
Definition entry_json (e : HistoryEntry) : Json :=
  JObject [(lit "url", JString (url e));
           (lit "prompt", JString (entry_prompt e));
           (lit "timestamp", JNumber (Number_toString (timestamp e)))].

(** The history container shows the history list, most recent entry
    first. *)
Definition rendered (s : State) : Prop :=
  historyContainerEl s = map history_item (rev (imageHistory s)).

(** The message the [catch] block of [generate] works on, when the
    request fails: the one of the rejection, or the one [generateImage]
    throws for a response without image. *)
Definition failure_message (o : ApiOutcome) : option JsString :=
  match o with
  | ApiRejected e => Some (error_message e)
  | ApiResolved (Some (_ :: _)) => None
  | ApiResolved _ => Some NO_IMAGES_MESSAGE
  end.

(** The error message matches one of the patterns of the [catch]
    block. *)
Definition recognised (env : Env) (message : JsString) : bool :=
  includes message (lit "You exceeded your current quota")
  || includes message (lit "Requested entity was not found.")
  || includes message (lit "API_KEY_INVALID")
  || includes message (lit "API key not valid")
  || includes (toLowerCase env message) (lit "permission denied").

Definition CUSTOM_KEY_INVALID_MESSAGE : JsString :=
  lit "The custom API key you provided is invalid or lacks necessary permissions. Please check the key in the input field.".
Definition STUDIO_KEY_INVALID_MESSAGE : JsString :=
  lit "The API key managed by AI Studio is invalid or lacks necessary permissions. Please use the "
  ++ dquote ++ lit "Add your API Key" ++ dquote
  ++ lit " button to select a valid key.".

(** What the [catch] block of [generate] does after it has logged the
    error and set the status: with the custom key in use it focuses the
    key input, otherwise it opens the key dialog when it asked for it
    and the environment has one. *)
Definition corrective_calls (env : Env) (isUsingCustomKey dialog : bool)
  : list Effect :=
  if isUsingCustomKey then [ApiKeyInputFocus]
  else if dialog && bool_decide (is_Some (aistudio env))
       then [OpenSelectKeyCall] else [].

(** The requests among the outside calls, in the order they were sent. *)
Fixpoint api_calls (l : list Effect) : list ImagesRequest :=
  match l with
  | [] => []
  | GenerateImagesCall req :: l' => req :: api_calls l'
  | _ :: l' => api_calls l'
  end.

(** The file name the Download button of a history item suggests. *)
Definition history_filename (e : HistoryEntry) : JsString :=
  lit "generated-image-" ++ Number_toString (timestamp e) ++ lit ".jpeg".

(** The data URL [generateImage] builds from an image. *)
Definition data_url (image : GeneratedImage) : JsString :=
  lit "data:image/jpeg;base64," ++ imageBytes image.

(** ** Sample pages and environments *)

Module Sample.

(** Lower-casing of the ASCII letters, which is what [toLowerCase] does
    on ASCII text. *)
Definition ascii_lower (s : JsString) : JsString :=
  map (fun c => if (65 <=? c) && (c <=? 90) then c + 32 else c) s.

(** A hosting environment from its key, its dialog and its API. *)
Definition env_with (key : option JsString) (studio : option AIStudio)
  (api : ImagesRequest -> ApiOutcome) : Env :=
  {| API_KEY := key;
     aistudio := studio;
     generateImages := api;
     Date_now := 1700000000000%Z;
     storage_has_room := fun _ => true;
     toLowerCase := ascii_lower |}.

Definition studio : AIStudio := mkAIStudio DialogResolved.

Definition one_image : ImagesRequest -> ApiOutcome :=
  fun _ => ApiResolved (Some [mkImage (lit "QUJD")]).

Definition two_images : ImagesRequest -> ApiOutcome :=
  fun _ => ApiResolved (Some [mkImage (lit "QUJD"); mkImage (lit "REVG")]).

Definition quota_error : ImagesRequest -> ApiOutcome :=
  fun _ => ApiRejected (ErrorObject
    (lit "429 You exceeded your current quota, please check your plan.")).

(** A page with a prompt typed in and nothing else touched. *)
Definition page (p : JsString) : State := set_prompt p (fresh_page ∅).

(** The same page with the custom-key box ticked and [k] in the field. *)
Definition page_custom (p k : JsString) : State :=
  set_controls (mkControls false false false false false false false false)
    (set_useCustomApiKeyCheckbox_checked true
       (set_apiKeyInputEl_value k
          (set_useCustomApiKey true (set_userApiKey k (page p))))).

(** An environment whose store refuses every write. *)
Definition full_store_env : Env :=
  {| API_KEY := Some (lit "env-key");
     aistudio := Some studio;
     generateImages := one_image;
     Date_now := 1700000000000%Z;
     storage_has_room := fun _ => false;
     toLowerCase := ascii_lower |}.

Definition no_images : ImagesRequest -> ApiOutcome :=
  fun _ => ApiResolved (Some []).

Definition invalid_key_error : ImagesRequest -> ApiOutcome :=
  fun _ => ApiRejected (ErrorObject (lit "403 PERMISSION DENIED for this key")).

(** Two history entries, the older one first. *)
Definition history : list HistoryEntry :=
  [mkEntry (lit "data:image/jpeg;base64,QUJD") (lit "a cat") 1700000000000%Z;
   mkEntry (lit "data:image/jpeg;base64,REVG") (lit "a dog") 1700000000001%Z].

(** A store that holds that history and a custom key that is in use. *)
Definition store : gmap string JsString :=
  <[USE_CUSTOM_KEY_STORAGE_KEY := lit "true"]>
    (<[CUSTOM_API_KEY_STORAGE_KEY := lit "my-key"]>
       (<[IMAGE_HISTORY_KEY := JSON_stringify_history history]> ∅)).

(** A store whose history text and toggle are not JSON. *)
Definition corrupt_store : gmap string JsString :=
  <[USE_CUSTOM_KEY_STORAGE_KEY := lit "yes"]>
    (<[CUSTOM_API_KEY_STORAGE_KEY := lit "my-key"]>
       (<[IMAGE_HISTORY_KEY := lit "[{oops"]> ∅)).

End Sample.

(** * Properties *)

(** ** Strings *)

Section StringFacts.

Implicit Types s pat : JsString.

Lemma trimStart_nil_iff s : trimStart s = [] <-> blank s = true.
Proof.
  induction s as [|c r IH]; simpl; [tauto|].
  destruct (is_white_space c); simpl; [exact IH|].
  split; discriminate.
Qed.

Lemma blank_trimStart s : blank (trimStart s) = blank s.
Proof.
  induction s as [|c r IH]; simpl; [reflexivity|].
  destruct (is_white_space c) eqn:E; simpl; [exact IH|].
  now rewrite E.
Qed.

Lemma blank_app s t : blank (s ++ t) = blank s && blank t.
Proof. apply forallb_app. Qed.

Lemma blank_rev s : blank (rev s) = blank s.
Proof.
  induction s as [|c r IH]; simpl; [reflexivity|].
  rewrite blank_app, IH. simpl. rewrite andb_true_r. apply andb_comm.
Qed.

Lemma trim_nil_iff s : trim s = [] <-> blank s = true.
Proof.
  unfold trim, trimEnd.
  rewrite <- (blank_trimStart s), <- (blank_rev (trimStart s)),
    <- trimStart_nil_iff.
  split; intros H.
  - apply (f_equal (@rev N)) in H. now rewrite rev_involutive in H.
  - now rewrite H.
Qed.

(** [trim] leaves something exactly when the string is not blank. *)
Lemma truthy_trim s : truthy (trim s) = negb (blank s).
Proof.
  destruct (blank s) eqn:E.
  - apply trim_nil_iff in E. now rewrite E.
  - destruct (trim s) eqn:T; [|reflexivity].
    apply trim_nil_iff in T. congruence.
Qed.

Lemma startsWith_spec s pat :
  startsWith s pat = true <-> exists post, s = pat ++ post.
Proof.
  revert s. induction pat as [|p pat IH]; intros s; simpl.
  - split; [intros _; now exists s | now destruct s].
  - destruct s as [|c s]; simpl.
    + split; [discriminate | intros [post H]; discriminate].
    + rewrite andb_true_iff, N.eqb_eq, IH. split.
      * intros [-> [post ->]]. now exists post.
      * intros [post H]. injection H as -> ->. eauto.
Qed.

(** [includes] finds the pattern exactly when the string splits around
    an occurrence of it. *)
Lemma includes_spec s pat :
  includes s pat = true <-> exists pre post, s = pre ++ pat ++ post.
Proof.
  induction s as [|c s IH].
  - cbn [includes]. rewrite orb_false_r, startsWith_spec. split.
    + intros [post H]. now exists [], post.
    + intros [pre [post H]]. destruct pre; [now exists post|discriminate].
  - cbn [includes]. rewrite orb_true_iff, startsWith_spec, IH. split.
    + intros [[post H] | [pre [post H]]].
      * now exists [], post.
      * exists (c :: pre), post. now rewrite H.
    + intros [pre [post H]]. destruct pre as [|c' pre].
      * left. now exists post.
      * right. injection H as _ H. eauto.
Qed.

End StringFacts.

(** ** Validation of the prompt *)

Section Validation.

Context (env : Env).

(** C3. When the prompt is empty or made of white space only, a click
    on the generate button changes nothing but the status line, which
    shows the empty-prompt message: no request goes to the image API (no
    outside call of any kind is made), and the history, the credential
    settings, the displayed image, the download link and the enablement
    of every control are those of before. *)
Theorem blank_prompt_click_only_sets_status (s : State) :
  blank (prompt s) = true ->
  let s' := generateButton_click env s in
  s' = set_statusEl (error_status EMPTY_PROMPT_MESSAGE) s
  /\ statusEl s' = error_status EMPTY_PROMPT_MESSAGE
  /\ effects s' = effects s
  /\ (forall req, GenerateImagesCall req ∈ effects s' ->
                  GenerateImagesCall req ∈ effects s)
  /\ imageHistory s' = imageHistory s
  /\ localStorage s' = localStorage s
  /\ userApiKey s' = userApiKey s
  /\ useCustomApiKey s' = useCustomApiKey s
  /\ outputImage_src s' = outputImage_src s
  /\ outputImage_display s' = outputImage_display s
  /\ downloadLink s' = downloadLink s
  /\ controls s' = controls s
  /\ loadingSpinner_display s' = loadingSpinner_display s.
Proof.
  intros Hblank s'. subst s'. unfold generateButton_click.
  rewrite truthy_trim, Hblank. simpl.
  repeat split; auto.
Qed.

(** A prompt with anything else in it does reach [generate]. *)
Lemma nonblank_prompt_click (s : State) :
  blank (prompt s) = false ->
  generateButton_click env s = exec (generate env) s.
Proof.
  intros H. unfold generateButton_click. now rewrite truthy_trim, H.
Qed.

End Validation.

Lemma blank_prompt_click_only_sets_status_witness :
  let s := Sample.page [32; 9; 10; 160] in
  let env := Sample.env_with (Some (lit "env-key")) (Some Sample.studio)
               Sample.one_image in
  statusEl (generateButton_click env s) = error_status EMPTY_PROMPT_MESSAGE
  /\ effects (generateButton_click env s) = effects s.
Proof.
  intros s env.
  destruct (blank_prompt_click_only_sets_status env s eq_refl)
    as (_ & Hstatus & Heff & _).
  split; [exact Hstatus | exact Heff].
Defined.

(** ** Key resolution *)

Section KeyResolution.

Context (env : Env).

(** C4, as amended.  With the custom-key box ticked and a key that is
    not blank, the attempt uses the custom key with its surrounding
    white space removed, marks it as custom, and the outcome is the same
    whatever the ambient key is; with the box unticked it uses the
    ambient key, not marked as custom, whatever the key field holds. *)
Theorem resolveActiveKey_cases (s : State) :
  (useCustomApiKey s = true -> blank (userApiKey s) = false ->
   forall env' : Env,
     resolveActiveKey env' s = (Some (trim (userApiKey s)), true))
  /\ (useCustomApiKey s = false ->
      resolveActiveKey env s = (API_KEY env, false)).
Proof.
  unfold resolveActiveKey. split.
  - intros Hon Hkey env'. now rewrite Hon, truthy_trim, Hkey.
  - intros Hoff. now rewrite Hoff.
Qed.

End KeyResolution.

Lemma resolveActiveKey_cases_witness :
  let env := Sample.env_with (Some (lit "env-key")) None Sample.one_image in
  resolveActiveKey env (Sample.page_custom (lit "a cat") (lit " my-key "))
  = (Some (lit "my-key"), true)
  /\ resolveActiveKey env
       (set_userApiKey (lit "my-key") (Sample.page (lit "a cat")))
     = (Some (lit "env-key"), false).
Proof.
  intros env. split.
  - apply (proj1 (resolveActiveKey_cases env
                    (Sample.page_custom (lit "a cat") (lit " my-key ")))
             eq_refl eq_refl).
  - apply (proj2 (resolveActiveKey_cases env
                    (set_userApiKey (lit "my-key") (Sample.page (lit "a cat"))))
             eq_refl).
Defined.

(** C4 as the specification words it fails on a key with white space
    around it: the key in use is not the text of the key field. *)
Lemma resolveActiveKey_trims_key :
  let env := Sample.env_with (Some (lit "env-key")) None Sample.one_image in
  let s := Sample.page_custom (lit "a cat") (lit " my-key ") in
  useCustomApiKey s = true
  /\ blank (userApiKey s) = false
  /\ resolveActiveKey env s <> (Some (userApiKey s), true).
Proof.
  intros env s. repeat split. vm_compute. discriminate.
Qed.

(** ** Running [generate] *)

(** Unfolds the monad so that a run of the script becomes a term over
    the field updates. *)
Ltac run_script :=
  unfold exec, request, attempt, no_credential, on_generation_error,
    generateImage, openApiKeyDialog, try_finally, try_catch, modify, throw;
  unfold mbind, mret, script_bind, script_ret;
  cbn beta iota zeta.

Section Generate.

Context (env : Env).

Lemma request_attempt key m s :
  request env key m s
  = (fst (attempt env key m s),
     setControlsDisabled false (snd (attempt env key m s))).
Proof.
  unfold request, try_finally, modify.
  now destruct (attempt env key m s).
Qed.

(** An attempt whose key resolves runs the request on the page that
    [begin_request] prepared. *)
Lemma generate_reaches_request s key m :
  resolveActiveKey env s = (Some key, m) -> truthy key = true ->
  generate env s = request env key m (begin_request (clear_highlight s)).
Proof.
  intros Hkey Htruthy. unfold generate. rewrite Hkey, Htruthy. reflexivity.
Qed.

(** An attempt without a usable key stops before any request. *)
Lemma generate_without_key s k m :
  resolveActiveKey env s = (k, m) -> truthy_opt k = false ->
  generate env s = no_credential env m s.
Proof.
  intros Hkey Hfalsy. unfold generate. rewrite Hkey.
  destruct k as [key|]; [|reflexivity].
  simpl in Hfalsy. now rewrite Hfalsy.
Qed.

(** What an attempt never touches: the script's variables other than
    the download link, the history list on the page, and the store. *)
Lemma attempt_frame key m s :
  let s' := snd (attempt env key m s) in
  prompt s' = prompt s
  /\ imageSize s' = imageSize s
  /\ aspectRatio s' = aspectRatio s
  /\ imageHistory s' = imageHistory s
  /\ userApiKey s' = userApiKey s
  /\ useCustomApiKey s' = useCustomApiKey s
  /\ historyContainerEl s' = historyContainerEl s
  /\ imageHistorySection_display s' = imageHistorySection_display s
  /\ localStorage s' = localStorage s
  /\ controls s' = controls s
  /\ loadingSpinner_display s' = loadingSpinner_display s.
Proof.
  unfold attempt. run_script.
  destruct (generateImages env _) as [[[|first others]|]|e]; cbn;
    try (destruct (classify env _ m) as [message [|]]);
    destruct m; cbn;
    try (destruct (aistudio env) as [[[|e']]|]; cbn);
    repeat split; reflexivity.
Qed.

Lemma request_state key m s :
  exec (request env key m) s
  = setControlsDisabled false (exec (attempt env key m) s).
Proof. unfold exec. now rewrite request_attempt. Qed.

(** The page at the end of an attempt that went as far as the request. *)
Lemma generate_state s key m :
  resolveActiveKey env s = (Some key, m) -> truthy key = true ->
  exec (generate env) s
  = setControlsDisabled false
      (exec (attempt env key m) (begin_request (clear_highlight s))).
Proof.
  intros Hkey Htruthy. unfold exec at 1.
  rewrite (generate_reaches_request _ _ _ Hkey Htruthy).
  apply request_state.
Qed.

(** [begin_request] disables every control. *)
Lemma begin_request_disables s c : disabled c (begin_request s) = true.
Proof. destruct c; reflexivity. Qed.

(** C6, as amended.  Whenever an attempt gets as far as the request,
    the start of the request shows the busy indicator and disables all
    eight controls; and however the attempt ends (an image, an error of
    any class, a failing key dialog) the busy indicator is hidden and
    the generate button, the prompt, the two selectors, the download
    button, the clear-history button and the custom-key box are enabled
    again.  The key input is enabled again only when the custom-key box
    is ticked: with the box not ticked it is left disabled. *)
Theorem controls_reenabled_after_attempt (s : State) key m :
  resolveActiveKey env s = (Some key, m) -> truthy key = true ->
  let s0 := begin_request (clear_highlight s) in
  let s' := exec (generate env) s in
  generate env s = request env key m s0
  /\ loadingSpinner_display s0 = DisplayBlock
  /\ (forall c, disabled c s0 = true)
  /\ loadingSpinner_display s' = DisplayNone
  /\ (forall c, c <> ApiKeyInput -> disabled c s' = false)
  /\ disabled ApiKeyInput s' = negb (useCustomApiKey s).
Proof.
  intros Hkey Htruthy s0 s'. subst s0 s'.
  split; [apply (generate_reaches_request _ _ _ Hkey Htruthy)|].
  split; [reflexivity|].
  split; [intros c; apply begin_request_disables|].
  rewrite (generate_state _ _ _ Hkey Htruthy).
  destruct (attempt_frame key m (begin_request (clear_highlight s)))
    as (_ & _ & _ & _ & _ & Htoggle & _).
  unfold exec. cbn in Htoggle.
  split; [reflexivity|]. split.
  - intros c Hc. destruct c; try reflexivity. congruence.
  - cbn. now rewrite Htoggle.
Qed.

(** C8. Re-enabling the controls sets the key input's [disabled] to the
    negation of the custom-key toggle: with the toggle off the input is
    disabled after [setControlsDisabled(false)], and so it is at the end
    of every attempt that reached the request, while the seven other
    controls are enabled. *)
Theorem reenabling_keeps_key_input_tied_to_toggle (s : State) :
  disabled ApiKeyInput (setControlsDisabled false s)
  = negb (useCustomApiKey s)
  /\ (forall c, c <> ApiKeyInput ->
                disabled c (setControlsDisabled false s) = false)
  /\ (useCustomApiKey s = false ->
      disabled ApiKeyInput (setControlsDisabled false s) = true
      /\ forall key m,
           resolveActiveKey env s = (Some key, m) -> truthy key = true ->
           disabled ApiKeyInput (exec (generate env) s) = true).
Proof.
  split; [reflexivity|]. split.
  - intros c Hc. destruct c; try reflexivity. congruence.
  - intros Hoff. split; [cbn; now rewrite Hoff|].
    intros key m Hkey Htruthy.
    rewrite (generate_state _ _ _ Hkey Htruthy).
    destruct (attempt_frame key m (begin_request (clear_highlight s)))
      as (_ & _ & _ & _ & _ & Htoggle & _).
    unfold exec. cbn in *. now rewrite Htoggle, Hoff.
Qed.

(** C10. When the API answers, [generateImage] shows the first image
    of the list and stores it as the download target, whatever follows
    it in the list; when the list is absent or empty it throws the
    no-images error and leaves the displayed image and the download
    target as they were. *)
Theorem generateImage_uses_first_image (s : State) p key size ratio images :
  generateImages env
    (mkRequest key (lit "imagen-4.0-generate-001") p size ratio)
  = ApiResolved images ->
  let r := generateImage env p key size ratio s in
  match images with
  | Some (first :: others) =>
      let imageUrl := lit "data:image/jpeg;base64," ++ imageBytes first in
      fst r = Normal tt
      /\ outputImage_src (snd r) = imageUrl
      /\ outputImage_display (snd r) = DisplayBlock
      /\ downloadButton_display (snd r) = DisplayBlock
      /\ downloadLink (snd r) = Some imageUrl
  | _ =>
      fst r = Throw (ErrorObject NO_IMAGES_MESSAGE)
      /\ outputImage_src (snd r) = outputImage_src s
      /\ outputImage_display (snd r) = outputImage_display s
      /\ downloadButton_display (snd r) = downloadButton_display s
      /\ downloadLink (snd r) = downloadLink s
  end.
Proof.
  intros Hapi r. subst r. run_script. rewrite Hapi.
  destruct images as [[|first others]|]; cbn; repeat split; reflexivity.
Qed.

(** *** Failed attempts *)

(** The request goes out with the page's prompt, size and ratio. *)
Lemma request_of_begin_request key s :
  request_of key (begin_request (clear_highlight s)) = request_of key s.
Proof. reflexivity. Qed.


(** The [catch] block on an error whose message mentions the quota. *)
Lemma classify_quota message m :
  includes message QUOTA_PATTERN = true ->
  classify env message m = (QUOTA_MESSAGE, true).
Proof.
  intros H. unfold classify. unfold QUOTA_PATTERN in H. now rewrite H.
Qed.

(** C5, as amended.  When the API rejects the request with a message
    that contains the quota text: with the custom key in use the status
    shows the quota message, [focus()] is called on the key input and
    the input is highlighted; with the ambient key in use and a key
    dialog in the environment the status shows the quota message and the
    dialog is opened; with the ambient key in use and no dialog in the
    environment no dialog is opened and the status shows instead that
    key selection is not available.  [focus()] is called and the input
    highlighted only in the first case, the dialog is opened only in the
    second.  The call to [focus()] finds the key input disabled: it is
    made in the [catch] block, on a page whose controls the start of the
    request disabled and that only the [finally] block enables again. *)
Theorem quota_failure_outcome (s : State) key m e :
  resolveActiveKey env s = (Some key, m) -> truthy key = true ->
  generateImages env (request_of key s) = ApiRejected e ->
  includes (error_message e) QUOTA_PATTERN = true ->
  let s' := exec (generate env) s in
  exists new,
    effects s' = effects s ++ new
    /\ (OpenSelectKeyCall ∈ new <-> m = false /\ is_Some (aistudio env))
    /\ (ApiKeyInputFocus ∈ new <-> m = true)
    /\ (highlighted s' <-> m = true)
    /\ statusEl s'
       = error_status
           (if negb m && negb (bool_decide (is_Some (aistudio env)))
            then NO_DIALOG_MESSAGE else QUOTA_MESSAGE)
    /\ (m = true ->
        exists called,
          exec (attempt env key m) (begin_request (clear_highlight s))
          = focus_and_highlight called
          /\ s' = setControlsDisabled false (focus_and_highlight called)
          /\ effects called
             = effects s ++ [GenerateImagesCall (request_of key s);
                             ConsoleError (lit "Image generation failed:")]
          /\ disabled ApiKeyInput called = true).
Proof.
  intros Hkey Htruthy Hapi Hquota s'. subst s'.
  rewrite (generate_state _ _ _ Hkey Htruthy).
  run_script.
  change (mkRequest key _ _ _ _) with (request_of key s).
  rewrite Hapi. cbn. rewrite (classify_quota _ m Hquota).
  assert (Hclear : ~ highlight ⊆ apiKeyInputEl_classList s ∖ highlight).
  { unfold highlight. set_solver. }
  destruct m; cbn;
    [|destruct (aistudio env) as [[[|e']]|] eqn:Hstudio; cbn];
    (eexists; rewrite <- ?app_assoc; split; [reflexivity|]);
    unfold highlighted; cbn;
    (split; [|split; [|split; [|split]]]);
    [repeat split; try done;
     try (intros; exfalso; set_solver);
     try (intros; set_solver);
     try (intros [? [? ?]]; done) ..
    |intros Hm; try discriminate Hm; clear Hm].
  exists (showStatusError QUOTA_MESSAGE
            (emit (ConsoleError (lit "Image generation failed:"))
               (emit (GenerateImagesCall (request_of key s))
                  (begin_request (clear_highlight s))))).
  split; [reflexivity|]. split; [reflexivity|].
  split; [cbn; now rewrite <- app_assoc | reflexivity].
Qed.

End Generate.

Lemma controls_reenabled_after_attempt_witness :
  let env := Sample.env_with (Some (lit "env-key")) None Sample.quota_error in
  let ticked := Sample.page_custom (lit "a cat") (lit " my-key ") in
  let unticked := Sample.page (lit "a cat") in
  (loadingSpinner_display (exec (generate env) ticked) = DisplayNone
   /\ forall c, disabled c (exec (generate env) ticked) = false)
  /\ (loadingSpinner_display (exec (generate env) unticked) = DisplayNone
      /\ (forall c, c <> ApiKeyInput ->
                    disabled c (exec (generate env) unticked) = false)
      /\ disabled ApiKeyInput (exec (generate env) unticked) = true).
Proof.
  intros env ticked unticked. split.
  - destruct (controls_reenabled_after_attempt env ticked (lit "my-key") true
                eq_refl eq_refl) as (_ & _ & _ & Hspin & Hothers & Hinput).
    split; [exact Hspin|].
    intros c. destruct c; try (apply Hothers; discriminate). exact Hinput.
  - destruct (controls_reenabled_after_attempt env unticked (lit "env-key")
                false eq_refl eq_refl)
      as (_ & _ & _ & Hspin & Hothers & Hinput).
    split; [exact Hspin|]. split; [exact Hothers | exact Hinput].
Defined.

(** C6 as the specification words it fails on the page as it loads over
    an empty store, with the custom-key box not ticked: the start of the
    request disables the key input along with the seven other controls,
    the image arrives, and the end of the attempt enables the seven
    others and leaves the key input disabled. *)
Lemma key_input_left_disabled :
  let env := Sample.env_with (Some (lit "env-key")) None Sample.one_image in
  exists loaded,
    initialize ∅ = Some loaded
    /\ let s := promptEl_input (lit "a cat") loaded in
       let s' := exec (generate env) s in
       generate env s
       = request env (lit "env-key") false (begin_request (clear_highlight s))
       /\ disabled ApiKeyInput (begin_request (clear_highlight s)) = true
       /\ has_image (generateImages env (request_of (lit "env-key") s)) = true
       /\ statusEl s' = InnerText (lit "Image generated successfully.")
       /\ disabled ApiKeyInput s' = true
       /\ disabled ApiKeyInput s' <> false.
Proof.
  intros env.
  destruct (initialize ∅) as [loaded|] eqn:Hinit;
    [|vm_compute in Hinit; discriminate Hinit].
  exists loaded. split; [reflexivity|].
  vm_compute in Hinit. injection Hinit as <-.
  split; [reflexivity|]. split; [reflexivity|]. split; [reflexivity|].
  split; [vm_compute; reflexivity|]. split; [vm_compute; reflexivity|].
  vm_compute. discriminate.
Qed.

Lemma reenabling_keeps_key_input_tied_to_toggle_witness :
  let env := Sample.env_with (Some (lit "env-key")) None Sample.one_image in
  let s := Sample.page (lit "a cat") in
  disabled ApiKeyInput (setControlsDisabled false s) = true
  /\ disabled ApiKeyInput (exec (generate env) s) = true.
Proof.
  intros env s.
  destruct (reenabling_keeps_key_input_tied_to_toggle env s)
    as (_ & _ & Hoff).
  destruct (Hoff eq_refl) as (Hnow & Hafter).
  split; [exact Hnow|].
  exact (Hafter (lit "env-key") false eq_refl eq_refl).
Defined.

Lemma generateImage_uses_first_image_witness :
  let env := Sample.env_with (Some (lit "env-key")) None Sample.two_images in
  let r := generateImage env (lit "a cat") (lit "env-key") Size1K Ratio1x1
             (Sample.page (lit "a cat")) in
  fst r = Normal tt
  /\ downloadLink (snd r) = Some (lit "data:image/jpeg;base64," ++ lit "QUJD").
Proof.
  intros env r.
  destruct (generateImage_uses_first_image env (Sample.page (lit "a cat"))
              (lit "a cat") (lit "env-key") Size1K Ratio1x1 _ eq_refl)
    as (Hok & _ & _ & _ & Hlink).
  split; [exact Hok | exact Hlink].
Defined.


Lemma quota_failure_outcome_witness :
  let env := Sample.env_with (Some (lit "env-key")) (Some Sample.studio)
               Sample.quota_error in
  let s := Sample.page_custom (lit "a cat") (lit " my-key ") in
  statusEl (exec (generate env) s) = error_status QUOTA_MESSAGE
  /\ highlighted (exec (generate env) s)
  /\ exists called,
       exec (generate env) s
       = setControlsDisabled false (focus_and_highlight called)
       /\ disabled ApiKeyInput called = true.
Proof.
  intros env s.
  destruct (quota_failure_outcome env s (lit "my-key") true
              (ErrorObject
                 (lit "429 You exceeded your current quota, please check your plan."))
              eq_refl eq_refl eq_refl eq_refl)
    as (new & _ & _ & _ & Hhigh & Hstatus & Hcalled).
  split; [exact Hstatus|]. split; [apply Hhigh; reflexivity|].
  destruct (Hcalled eq_refl) as (called & _ & Hend & _ & Hdisabled).
  exists called. split; [exact Hend | exact Hdisabled].
Defined.

(** C5 as the specification words it fails where the ambient key is in
    use and the environment has no key dialog: the quota error is
    caught, but the status ends up showing that key selection is not
    available, and no dialog is opened. *)
Lemma quota_failure_without_dialog :
  let env := Sample.env_with (Some (lit "env-key")) None Sample.quota_error in
  let s := Sample.page (lit "a cat") in
  let s' := exec (generate env) s in
  resolveActiveKey env s = (Some (lit "env-key"), false)
  /\ (exists e,
        generateImages env (request_of (lit "env-key") s) = ApiRejected e
        /\ includes (error_message e) QUOTA_PATTERN = true)
  /\ statusEl s' <> error_status QUOTA_MESSAGE
  /\ statusEl s' = error_status NO_DIALOG_MESSAGE
  /\ OpenSelectKeyCall ∉ effects s'.
Proof.
  intros env s s'. split; [reflexivity|]. split.
  - eexists. split; reflexivity.
  - split; [|split].
    + vm_compute. discriminate.
    + vm_compute. reflexivity.
    + vm_compute. intros Hin.
      repeat (apply elem_of_cons in Hin as [Hin|Hin]; [discriminate|]).
      now apply elem_of_nil in Hin.
Qed.

(** ** The history *)

Section History.

Context (env : Env).

Lemma saveHistory_imageHistory s :
  imageHistory (saveHistory env s) = imageHistory s.
Proof.
  unfold saveHistory, localStorage_setItem. run_script.
  now destruct (storage_has_room env _).
Qed.

Lemma render_loop_imageHistory k s :
  imageHistory (render_loop k s) = imageHistory s.
Proof.
  revert s. induction k as [|i IH]; intros s; simpl; [reflexivity|].
  destruct (imageHistory s !! i); now rewrite IH.
Qed.

Lemma renderImageHistory_imageHistory s :
  imageHistory (renderImageHistory s) = imageHistory s.
Proof.
  unfold renderImageHistory. cbn.
  destruct (length (imageHistory s) =? 0)%nat; [reflexivity|].
  now rewrite render_loop_imageHistory.
Qed.

(** The loop appends the first [k] entries, last one first. *)
Lemma render_loop_container k s :
  (k <= length (imageHistory s))%nat ->
  historyContainerEl (render_loop k s)
  = historyContainerEl s
    ++ map history_item (rev (take k (imageHistory s))).
Proof.
  revert s. induction k as [|i IH]; intros s Hk; simpl.
  - now rewrite app_nil_r.
  - destruct (lookup_lt_is_Some_2 (imageHistory s) i) as [item Hitem]; [lia|].
    rewrite Hitem, IH by (simpl; lia). simpl.
    rewrite (take_S_r _ _ _ Hitem), rev_app_distr. simpl.
    now rewrite <- app_assoc.
Qed.

Lemma render_loop_section_display k s :
  imageHistorySection_display (render_loop k s)
  = imageHistorySection_display s.
Proof.
  revert s. induction k as [|i IH]; intros s; simpl; [reflexivity|].
  destruct (imageHistory s !! i); now rewrite IH.
Qed.

(** Rendering lists the entries most recent first, and shows the
    history section exactly when there is an entry. *)
Lemma renderImageHistory_reverse s :
  historyContainerEl (renderImageHistory s)
  = map history_item (rev (imageHistory s))
  /\ imageHistorySection_display (renderImageHistory s)
     = if (length (imageHistory s) =? 0)%nat then DisplayNone else DisplayBlock.
Proof.
  unfold renderImageHistory. cbn.
  destruct (imageHistory s) as [|e h] eqn:Hh; [split; reflexivity|].
  cbn [length Nat.eqb]. split.
  - rewrite render_loop_container by (cbn; rewrite Hh; reflexivity).
    cbn [historyContainerEl set_historyContainerEl
         set_imageHistorySection_display imageHistory app].
    rewrite Hh. change (S (length h)) with (length (e :: h)).
    now rewrite firstn_all.
  - now rewrite render_loop_section_display.
Qed.

(** [addImageToHistory] appends one entry, stamped with the clock, and
    renders the list with that entry first. *)
Lemma addImageToHistory_appends_one u p s :
  imageHistory (addImageToHistory env u p s)
  = imageHistory s ++ [mkEntry u p (Date_now env)]
  /\ historyContainerEl (addImageToHistory env u p s)
     = history_item (mkEntry u p (Date_now env))
       :: map history_item (rev (imageHistory s)).
Proof.
  unfold addImageToHistory.
  split.
  - now rewrite renderImageHistory_imageHistory, saveHistory_imageHistory.
  - rewrite (proj1 (renderImageHistory_reverse _)), saveHistory_imageHistory.
    cbn. now rewrite rev_app_distr.
Qed.

(** Nothing in [generate] writes the history: whatever the outcome, the
    list and the store are those of before. *)
Lemma generate_keeps_history s :
  imageHistory (exec (generate env) s) = imageHistory s
  /\ localStorage (exec (generate env) s) = localStorage s
  /\ historyContainerEl (exec (generate env) s) = historyContainerEl s.
Proof.
  destruct (resolveActiveKey env s) as [k m] eqn:Hkey.
  destruct (truthy_opt k) eqn:Htruthy.
  - destruct k as [key|]; [|discriminate]. cbn in Htruthy.
    rewrite (generate_state _ _ _ _ Hkey Htruthy).
    destruct (attempt_frame env key m (begin_request (clear_highlight s)))
      as (_ & _ & _ & Hh & _ & _ & Hc & _ & Hl & _).
    unfold exec. cbn in *. now rewrite Hh, Hl, Hc.
  - unfold exec. rewrite (generate_without_key _ _ _ _ Hkey Htruthy).
    run_script. destruct m; cbn;
      try (destruct (aistudio env) as [[[|e']]|]; cbn);
      repeat split; reflexivity.
Qed.

End History.

(** C1 (the code departs from the claim).  A generation that succeeds
    shows the image and reports success, yet appends nothing: here the
    API returns one image for the prompt, and the history list, its
    rendering and the stored history are still empty afterwards. *)
Theorem successful_generation_appends_nothing :
  let env := Sample.env_with (Some (lit "env-key")) (Some Sample.studio)
               Sample.one_image in
  let s := Sample.page (lit "a cat") in
  let s' := generateButton_click env s in
  statusEl s' = InnerText (lit "Image generated successfully.")
  /\ outputImage_display s' = DisplayBlock
  /\ downloadLink s' = Some (lit "data:image/jpeg;base64,QUJD")
  /\ imageHistory s = []
  /\ imageHistory s' = []
  /\ historyContainerEl s' = []
  /\ localStorage s' !! IMAGE_HISTORY_KEY = None.
Proof.
  vm_compute. repeat split; reflexivity.
Qed.

(** No key is ever marked as custom without being usable: the branch of
    [generate] that focuses the key input when no key is available
    cannot be taken. *)
Lemma custom_key_is_always_usable (env : Env) (s : State) k :
  resolveActiveKey env s = (k, true) -> truthy_opt k = true.
Proof.
  unfold resolveActiveKey.
  destruct (useCustomApiKey s && truthy (trim (userApiKey s))) eqn:E.
  - intros [= <-]. cbn. now apply andb_true_iff in E.
  - discriminate.
Qed.

(** With the custom-key box ticked and a blank key, the attempt falls
    back on the ambient key and is not marked as custom. *)
Lemma blank_custom_key_falls_back (env : Env) (s : State) :
  useCustomApiKey s = true -> blank (userApiKey s) = true ->
  resolveActiveKey env s = (API_KEY env, false).
Proof.
  intros _ Hblank. unfold resolveActiveKey.
  now rewrite truthy_trim, Hblank, andb_false_r.
Qed.

(** C2 (the code departs from the claim).  With the custom-key box
    ticked, a blank custom key and no ambient key, the attempt reports
    that no key is configured, but it opens the external key dialog and
    neither focuses nor highlights the key input. *)
Theorem blank_custom_key_opens_dialog :
  let env := Sample.env_with None (Some Sample.studio) Sample.one_image in
  let s := Sample.page_custom (lit "a cat") (lit "  ") in
  let s' := generateButton_click env s in
  useCustomApiKey s = true
  /\ blank (userApiKey s) = true
  /\ API_KEY env = None
  /\ statusEl s' = error_status NO_KEY_MESSAGE
  /\ effects s' = [OpenSelectKeyCall]
  /\ apiKeyInputEl_classList s' = ∅
  /\ ~ highlighted s'.
Proof.
  repeat split; try (vm_compute; reflexivity).
  unfold highlighted. vm_compute. intros H.
  specialize (H "ring-red-500"). vm_compute in H.
  discriminate (H eq_refl).
Qed.

(** ** Invariants of the page *)

Section Invariants.

Context (env : Env).




Lemma saveCustomApiKeySettings_controls s :
  controls (saveCustomApiKeySettings env s) = controls s
  /\ useCustomApiKey (saveCustomApiKeySettings env s) = useCustomApiKey s
  /\ imageHistory (saveCustomApiKeySettings env s) = imageHistory s.
Proof.
  unfold saveCustomApiKeySettings, localStorage_setItem. run_script.
  destruct (storage_has_room env _); cbn; [|repeat split; reflexivity].
  destruct (storage_has_room env _); cbn; repeat split; reflexivity.
Qed.



End Invariants.


(** No event appends to the history: a listener leaves the list as it
    is or empties it. *)
Lemma handle_never_appends env ev s :
  imageHistory (handle env ev s) = imageHistory s
  \/ imageHistory (handle env ev s) = [].
Proof.
  destruct ev; cbn [handle]; try (left; reflexivity).
  - left. unfold generateButton_click.
    destruct (negb (truthy (trim (prompt s)))); [reflexivity|].
    apply generate_keeps_history.
  - left. unfold downloadButton_click, handleDownload.
    destruct (downloadLink s) as [link|]; [|reflexivity].
    destruct (truthy link); reflexivity.
  - left. destruct (historyContainerEl s !! i) as [item|]; [|reflexivity].
    unfold handleDownload. destruct (truthy _); reflexivity.
  - right. unfold clearHistoryButton_click, clearImageHistory. cbn.
    now rewrite renderImageHistory_imageHistory, saveHistory_imageHistory.
  - left. unfold apiKeyInputEl_input. cbn.
    match goal with
    | |- context [saveCustomApiKeySettings env ?s0] =>
        destruct (saveCustomApiKeySettings_controls env s0) as (_ & _ & Hh)
    end.
    exact Hh.
  - left. unfold useCustomApiKeyCheckbox_change. cbn.
    match goal with
    | |- context [saveCustomApiKeySettings env ?s0] =>
        destruct (saveCustomApiKeySettings_controls env s0) as (_ & _ & Hh)
    end.
    exact Hh.
Qed.

(** ** Writing and reading the stored history *)

Section Digits.

Lemma digits_uint_uint_digits d : digits_uint (uint_digits d) = Some d.
Proof.
  induction d as [|? IH|? IH|? IH|? IH|? IH|? IH|? IH|? IH|? IH|? IH];
    simpl; [reflexivity | rewrite IH; reflexivity ..].
Qed.

(** The digits of a positive number do not start with a zero. *)
Lemma to_uint_head p :
  match Pos.to_uint p with
  | Decimal.Nil | Decimal.D0 _ => False
  | _ => True
  end.
Proof.
  pose proof (DecimalPos.Unsigned.to_of (Pos.to_uint p)) as Hnorm.
  rewrite DecimalPos.Unsigned.of_to in Hnorm. cbn in Hnorm.
  pose proof (DecimalPos.Unsigned.to_uint_nonzero p) as Hnz.
  pose proof (DecimalPos.Unsigned.to_uint_nonnil p) as Hnn.
  destruct (Pos.to_uint p) as [|r| | | | | | | | |] eqn:E; try exact I.
  - exact (Hnn eq_refl).
  - unfold Decimal.unorm in Hnorm.
    destruct (Decimal.nzhead (Decimal.D0 r)) eqn:Hh; try discriminate.
    + exact (Hnz Hnorm).
    + exact (DecimalFacts.nzhead_nonzero _ _ Hh).
Qed.

Lemma is_digit_uint_digits d : forallb is_digit (uint_digits d) = true.
Proof. induction d; simpl; auto. Qed.

Lemma span_digits_app ds rest :
  forallb is_digit ds = true ->
  match rest with c :: _ => is_digit c = false | [] => True end ->
  span_digits (ds ++ rest) = (ds, rest).
Proof.
  intros Hds Hrest. induction ds as [|c ds IH]; simpl in *.
  - destruct rest as [|c r]; [reflexivity|]. simpl. now rewrite Hrest.
  - apply andb_true_iff in Hds as [Hc Hds]. now rewrite Hc, IH.
Qed.

End Digits.

Section Numbers.

Lemma is_digit_cases c :
  is_digit c = true ->
  c = 48 \/ c = 49 \/ c = 50 \/ c = 51 \/ c = 52
  \/ c = 53 \/ c = 54 \/ c = 55 \/ c = 56 \/ c = 57.
Proof.
  unfold is_digit. rewrite andb_true_iff, !N.leb_le. lia.
Qed.

Lemma uint_digits_to_uint p :
  exists c ds,
    uint_digits (Pos.to_uint p) = c :: ds
    /\ is_digit c = true /\ c <> 48 /\ forallb is_digit ds = true.
Proof.
  pose proof (to_uint_head p) as Hhead.
  destruct (Pos.to_uint p) as [|r|r|r|r|r|r|r|r|r|r]; try contradiction;
    eexists _, (uint_digits r); simpl;
    (split; [reflexivity|split; [reflexivity|split; [discriminate|]]]);
    apply is_digit_uint_digits.
Qed.

Lemma lex_number_digits c ds rest :
  is_digit c = true -> c <> 48 -> forallb is_digit ds = true ->
  lex_number ((c :: ds) ++ 125 :: rest) = Some (c :: ds, 125 :: rest)
  /\ lex_number (45 :: (c :: ds) ++ 125 :: rest)
     = Some (45 :: c :: ds, 125 :: rest).
Proof.
  intros Hc H0 Hds.
  pose proof (span_digits_app ds (125 :: rest) Hds eq_refl) as Hspan.
  destruct (is_digit_cases c Hc)
    as [->|[->|[->|[->|[->|[->|[->|[->|[->| ->]]]]]]]]];
    try congruence;
    unfold lex_number, lex_int_part; simpl; rewrite Hspan; simpl;
    rewrite app_nil_r; split; reflexivity.
Qed.

(** A number as [Number_toString] writes it is read back whole when a
    closing brace follows. *)
Lemma lex_number_toString z rest :
  lex_number (Number_toString z ++ 125 :: rest)
  = Some (Number_toString z, 125 :: rest).
Proof.
  destruct z as [|p|p]; [reflexivity| |];
    unfold Number_toString; cbn [Z.to_int];
    destruct (uint_digits_to_uint p) as (c & ds & -> & Hc & H0 & Hds);
    apply (lex_number_digits c ds rest Hc H0 Hds).
Qed.

Lemma Number_toString_head z :
  exists c r, Number_toString z = c :: r /\ (c = 45 \/ is_digit c = true).
Proof.
  destruct z as [|p|p]; unfold Number_toString; cbn [Z.to_int].
  - exists 48, []. split; [reflexivity | now right].
  - destruct (uint_digits_to_uint p) as (c & ds & -> & Hc & _).
    exists c, ds. split; [reflexivity | now right].
  - eexists 45, _. split; [reflexivity | now left].
Qed.

(** A value that starts like a number is read by the number lexer. *)
Lemma parse_value_number fuel c r :
  c = 45 \/ is_digit c = true ->
  parse_value (S fuel) (c :: r)
  = match lex_number (c :: r) with
    | Some (literal, rest) => Parsed (JNumber literal) rest
    | None => SyntaxError
    end.
Proof.
  intros [->|Hc]; [reflexivity|].
  destruct (is_digit_cases c Hc)
    as [->|[->|[->|[->|[->|[->|[->|[->|[->| ->]]]]]]]]]; reflexivity.
Qed.

Lemma parse_value_toString fuel z rest :
  parse_value (S fuel) (Number_toString z ++ 125 :: rest)
  = Parsed (JNumber (Number_toString z)) (125 :: rest).
Proof.
  pose proof (lex_number_toString z rest) as Hlex.
  destruct (Number_toString_head z) as (c & r & Heq & Hc).
  rewrite Heq in *. cbn [app] in *.
  now rewrite (parse_value_number fuel c _ Hc), Hlex.
Qed.

(** The literal [Number_toString] writes denotes the number. *)
Lemma as_integer_toString z : as_integer (Number_toString z) = Some z.
Proof.
  unfold as_integer.
  assert (Hcand : literal_int (Number_toString z) = Some (Z.to_int z)).
  { unfold literal_int.
    destruct z as [|p|p]; [reflexivity| |];
      unfold Number_toString; cbn [Z.to_int].
    - destruct (uint_digits_to_uint p) as (c & ds & Heq & Hc & _).
      assert (Hd : digits_uint (c :: ds) = Some (Pos.to_uint p))
        by (rewrite <- Heq; apply digits_uint_uint_digits).
      rewrite Heq.
      destruct (is_digit_cases c Hc)
        as [->|[->|[->|[->|[->|[->|[->|[->|[->| ->]]]]]]]]];
        now rewrite Hd.
    - now rewrite digits_uint_uint_digits. }
  rewrite Hcand, DecimalZ.of_to.
  now rewrite decide_True by reflexivity.
Qed.

End Numbers.

Section JsonStrings.

Lemma hex_value_digit d : d < 16 -> hex_value (hex_digit d) = Some d.
Proof.
  intros Hd. unfold hex_value, hex_digit, is_digit.
  destruct (N.ltb_spec d 10) as [Hlt|Hge].
  - replace ((48 <=? 48 + d) && (48 + d <=? 57)) with true
      by (symmetry; apply andb_true_iff; rewrite !N.leb_le; lia).
    f_equal. lia.
  - replace ((48 <=? 87 + d) && (87 + d <=? 57)) with false
      by (symmetry; apply andb_false_iff; right; apply N.leb_gt; lia).
    replace ((97 <=? 87 + d) && (87 + d <=? 102)) with true
      by (symmetry; apply andb_true_iff; rewrite !N.leb_le; lia).
    f_equal. lia.
Qed.

Lemma hex4_value_escape c tail :
  c < 65536 ->
  match unicode_escape c ++ tail with
  | _ :: _ :: h1 :: h2 :: h3 :: h4 :: tail' =>
      hex4_value h1 h2 h3 h4 = Some c /\ tail' = tail
  | _ => False
  end.
Proof.
  intros Hc. unfold unicode_escape. cbn [app]. split; [|reflexivity].
  unfold hex4_value.
  rewrite !hex_value_digit by (apply N.mod_lt; discriminate).
  f_equal.
  zify. Z.to_euclidean_division_equations. lia.
Qed.

(** A code unit that needs no escape is read as itself. *)
Lemma parse_string_body_literal c tail :
  c <> 34 -> c <> 92 -> 32 <= c ->
  parse_string_body (c :: tail)
  = match parse_string_body tail with
    | Some (str, rest) => Some (c :: str, rest)
    | None => None
    end.
Proof.
  intros H34 H92 H32. cbn [parse_string_body].
  apply N.eqb_neq in H34, H92. rewrite H34, H92.
  now replace (c <? 32) with false by (symmetry; apply N.ltb_ge; lia).
Qed.

Lemma parse_string_body_escape c tail :
  c < 65536 ->
  parse_string_body (unicode_escape c ++ tail)
  = match parse_string_body tail with
    | Some (str, rest) => Some (c :: str, rest)
    | None => None
    end.
Proof.
  intros Hc. pose proof (hex4_value_escape c tail Hc) as Hhex.
  unfold unicode_escape in *. cbn [app] in *. destruct Hhex as [Hhex _].
  cbn [parse_string_body]. cbn [N.eqb Pos.eqb]. now rewrite Hhex.
Qed.

(** What [QuoteJSONString] writes for one code unit is read back as
    that code unit. *)
Lemma parse_string_body_quote_unit c tail :
  parse_string_body (quote_unit c ++ tail)
  = match parse_string_body tail with
    | Some (str, rest) => Some (c :: str, rest)
    | None => None
    end.
Proof.
  unfold quote_unit.
  repeat match goal with
         | |- context [if ?c =? ?k then _ else _] =>
             destruct (N.eqb_spec c k) as [->|?]; [reflexivity|]
         end.
  destruct ((c <? 32) || is_high_surrogate c || is_low_surrogate c) eqn:E.
  - apply parse_string_body_escape.
    unfold is_high_surrogate, is_low_surrogate in E.
    rewrite !orb_true_iff, !andb_true_iff, N.ltb_lt, !N.leb_le in E. lia.
  - apply orb_false_iff in E as [E _]. apply orb_false_iff in E as [E _].
    apply N.ltb_ge in E. now apply parse_string_body_literal.
Qed.

Lemma quote_chars_step c d r :
  quote_chars (c :: d :: r)
  = if is_high_surrogate c && is_low_surrogate d
    then c :: d :: quote_chars r
    else quote_unit c ++ quote_chars (d :: r).
Proof. reflexivity. Qed.

(** The body of a quoted string is read back up to its closing quote. *)
Lemma parse_string_body_quote_chars s rest :
  parse_string_body (quote_chars s ++ 34 :: rest) = Some (s, rest).
Proof.
  remember (length s) as n eqn:Hn.
  revert s Hn. induction n as [n IH] using lt_wf_ind. intros s Hn.
  destruct s as [|c [|d r]].
  - reflexivity.
  - cbn [quote_chars]. rewrite parse_string_body_quote_unit. reflexivity.
  - rewrite quote_chars_step.
    destruct (is_high_surrogate c && is_low_surrogate d) eqn:Hpair.
    + apply andb_true_iff in Hpair as [Hc Hd].
      unfold is_high_surrogate, is_low_surrogate in Hc, Hd.
      rewrite andb_true_iff, !N.leb_le in Hc, Hd.
      cbn [app].
      rewrite !parse_string_body_literal by lia.
      rewrite (IH (length r)) by (subst n; simpl; lia || reflexivity).
      reflexivity.
    + rewrite <- app_assoc, parse_string_body_quote_unit.
      rewrite (IH (length (d :: r))) by (subst n; simpl; lia || reflexivity).
      reflexivity.
Qed.

(** A quoted string is read back as a string value. *)
Lemma parse_value_QuoteJSONString fuel s rest :
  parse_value (S fuel) (QuoteJSONString s ++ rest) = Parsed (JString s) rest.
Proof.
  unfold QuoteJSONString. cbn [app]. rewrite <- app_assoc. cbn [app].
  cbn [parse_value]. now rewrite parse_string_body_quote_chars.
Qed.

End JsonStrings.

Section JsonHistory.

(** One member of an object, followed by a comma and more members. *)
Lemma parse_members_more fuel key text v next ms rest :
  parse_value fuel (text ++ 44 :: next) = Parsed v (44 :: next) ->
  skip_ws (text ++ 44 :: next) = text ++ 44 :: next ->
  skip_ws next = next ->
  parse_members fuel next = Parsed ms rest ->
  parse_members (S fuel) (QuoteJSONString key ++ 58 :: text ++ 44 :: next)
  = Parsed ((key, v) :: ms) rest.
Proof.
  intros Hvalue Hws Hnext Hms.
  unfold QuoteJSONString. cbn [app]. rewrite <- app_assoc. cbn [app].
  cbn [parse_members]. rewrite parse_string_body_quote_chars.
  cbn [skip_ws is_json_ws N.eqb Pos.eqb orb].
  rewrite Hws, Hvalue. cbn [skip_ws is_json_ws N.eqb Pos.eqb orb].
  now rewrite Hnext, Hms.
Qed.

(** The last member of an object, followed by the closing brace. *)
Lemma parse_members_last fuel key text v rest :
  parse_value fuel (text ++ 125 :: rest) = Parsed v (125 :: rest) ->
  skip_ws (text ++ 125 :: rest) = text ++ 125 :: rest ->
  parse_members (S fuel) (QuoteJSONString key ++ 58 :: text ++ 125 :: rest)
  = Parsed [(key, v)] rest.
Proof.
  intros Hvalue Hws.
  unfold QuoteJSONString. cbn [app]. rewrite <- app_assoc. cbn [app].
  cbn [parse_members]. rewrite parse_string_body_quote_chars.
  cbn [skip_ws is_json_ws N.eqb Pos.eqb orb].
  rewrite Hws, Hvalue. reflexivity.
Qed.

Lemma skip_ws_QuoteJSONString s tail :
  skip_ws (QuoteJSONString s ++ tail) = QuoteJSONString s ++ tail.
Proof. reflexivity. Qed.

Lemma skip_ws_Number_toString z tail :
  skip_ws (Number_toString z ++ tail) = Number_toString z ++ tail.
Proof.
  destruct (Number_toString_head z) as (c & r & -> & [->|Hc]); [reflexivity|].
  destruct (is_digit_cases c Hc)
    as [->|[->|[->|[->|[->|[->|[->|[->|[->| ->]]]]]]]]]; reflexivity.
Qed.

(** An object with at least one member. *)
Lemma parse_value_object fuel key text ms rest :
  parse_members fuel (QuoteJSONString key ++ text) = Parsed ms rest ->
  parse_value (S fuel) (123 :: QuoteJSONString key ++ text)
  = Parsed (JObject ms) rest.
Proof.
  intros Hms. unfold QuoteJSONString in *. cbn [app] in *.
  cbn [parse_value skip_ws is_json_ws N.eqb Pos.eqb orb].
  now rewrite Hms.
Qed.

(** The text of an entry is read back as its syntax tree. *)
Lemma parse_value_stringify_entry fuel e rest :
  parse_value (5 + fuel) (stringify_entry e ++ rest)
  = Parsed (entry_json e) rest.
Proof.
  unfold stringify_entry, entry_json.
  change (lit "{") with [123]. change (lit "}") with [125].
  change (lit ":") with [58]. change (lit ",") with [44].
  rewrite <- !app_assoc. cbn [app plus].
  apply parse_value_object.
  apply parse_members_more;
    [apply parse_value_QuoteJSONString | reflexivity | reflexivity |].
  apply parse_members_more;
    [apply parse_value_QuoteJSONString | reflexivity | reflexivity |].
  apply parse_members_last;
    [apply parse_value_toString | apply skip_ws_Number_toString].
Qed.

Lemma skip_ws_stringify_entry e tail :
  skip_ws (stringify_entry e ++ tail) = stringify_entry e ++ tail.
Proof. reflexivity. Qed.

(** One element of an array, followed by a comma and more elements. *)
Lemma parse_elements_more fuel text v next vs rest :
  parse_value fuel (text ++ 44 :: next) = Parsed v (44 :: next) ->
  skip_ws next = next ->
  parse_elements fuel next = Parsed vs rest ->
  parse_elements (S fuel) (text ++ 44 :: next) = Parsed (v :: vs) rest.
Proof.
  intros Hvalue Hnext Hvs. cbn [parse_elements]. rewrite Hvalue.
  cbn [skip_ws is_json_ws N.eqb Pos.eqb orb]. now rewrite Hnext, Hvs.
Qed.

(** The last element of an array, followed by the closing bracket. *)
Lemma parse_elements_last fuel text v rest :
  parse_value fuel (text ++ 93 :: rest) = Parsed v (93 :: rest) ->
  parse_elements (S fuel) (text ++ 93 :: rest) = Parsed [v] rest.
Proof.
  intros Hvalue. cbn [parse_elements]. now rewrite Hvalue.
Qed.

Lemma stringify_entries_cons e e' h :
  stringify_entries (e :: e' :: h)
  = stringify_entry e ++ 44 :: stringify_entries (e' :: h).
Proof. reflexivity. Qed.

Lemma skip_ws_stringify_entries e h tail :
  skip_ws (stringify_entries (e :: h) ++ tail)
  = stringify_entries (e :: h) ++ tail.
Proof. destruct h; reflexivity. Qed.

(** The texts of the entries of a history that is not empty are read
    back, given one unit of fuel for each entry and five more. *)
Lemma parse_elements_stringify_entries e h fuel rest :
  parse_elements (length (e :: h) + 5 + fuel)
    (stringify_entries (e :: h) ++ 93 :: rest)
  = Parsed (map entry_json (e :: h)) rest.
Proof.
  revert e. induction h as [|e' h IH]; intros e.
  - cbn [length plus stringify_entries map].
    apply parse_elements_last. apply (parse_value_stringify_entry fuel).
  - rewrite stringify_entries_cons. rewrite <- app_assoc. cbn [app].
    change (length (e :: e' :: h) + 5 + fuel)%nat
      with (S (length (e' :: h) + 5 + fuel)).
    cbn [map]. apply parse_elements_more.
    + replace (length (e' :: h) + 5 + fuel)%nat
        with (5 + (length (e' :: h) + fuel))%nat by lia.
      apply parse_value_stringify_entry.
    + apply skip_ws_stringify_entries.
    + apply IH.
Qed.

Lemma stringify_entry_head e :
  exists text, stringify_entry e = 123 :: text.
Proof. eexists. reflexivity. Qed.

Lemma length_stringify_entries h :
  (length h <= length (stringify_entries h))%nat.
Proof.
  induction h as [|e [|e' h] IH].
  - reflexivity.
  - cbn [stringify_entries].
    destruct (stringify_entry_head e) as [text ->]. cbn [length]. lia.
  - rewrite stringify_entries_cons.
    destruct (stringify_entry_head e) as [text ->].
    cbn [app length] in *. rewrite length_app. cbn [length]. lia.
Qed.

Lemma stringify_entries_head e h :
  exists text, stringify_entries (e :: h) = 123 :: text.
Proof.
  destruct h as [|e' h]; [apply stringify_entry_head|].
  rewrite stringify_entries_cons.
  destruct (stringify_entry_head e) as [text ->]. now eexists.
Qed.

(** An array whose first element is an object. *)
Lemma parse_value_array fuel text vs rest :
  parse_elements fuel (123 :: text) = Parsed vs rest ->
  parse_value (S fuel) (91 :: 123 :: text) = Parsed (JArray vs) rest.
Proof.
  intros Hvs. cbn [parse_value skip_ws is_json_ws N.eqb Pos.eqb orb].
  now rewrite Hvs.
Qed.

(** [JSON.parse] reads back what [JSON.stringify] wrote. *)
Lemma JSON_parse_stringify_history h :
  JSON_parse (JSON_stringify_history h) = Some (JArray (map entry_json h)).
Proof.
  unfold JSON_parse, JSON_stringify_history.
  change (lit "[") with [91]. change (lit "]") with [93]. cbn [app].
  destruct h as [|e h]; [reflexivity|].
  pose proof (length_stringify_entries (e :: h)) as Hlen.
  pose proof (parse_elements_stringify_entries e h) as Hparse.
  destruct (stringify_entries_head e h) as [text Htext].
  rewrite Htext in *. cbn [app skip_ws is_json_ws N.eqb Pos.eqb orb].
  remember (length (91 :: 123 :: text ++ [93])) as n eqn:Hn.
  assert (Hfuel : exists fuel,
             (2 * n + 2 = S (length (e :: h) + 5 + fuel))%nat).
  { exists (2 * n + 2 - S (length (e :: h) + 5))%nat.
    cbn [length] in *. rewrite length_app in Hn. cbn [length] in Hn. lia. }
  destruct Hfuel as [fuel ->].
  rewrite (parse_value_array _ (text ++ [93]) (map entry_json (e :: h)) []).
  - reflexivity.
  - apply (Hparse fuel []).
Qed.

(** The syntax tree of a stringified history is of the declared type. *)
Lemma as_entry_entry_json e : as_entry (entry_json e) = Some e.
Proof.
  unfold as_entry, entry_json.
  rewrite decide_True by (repeat split; reflexivity).
  rewrite as_integer_toString. now destruct e.
Qed.

Lemma as_history_history_json h :
  as_history (JArray (map entry_json h)) = Some h.
Proof.
  cbn [as_history]. induction h as [|e h IH]; [reflexivity|].
  cbn [map mapM]. rewrite as_entry_entry_json. cbn.
  now rewrite IH.
Qed.

Lemma truthy_JSON_stringify_history h :
  truthy (JSON_stringify_history h) = true.
Proof. reflexivity. Qed.

End JsonHistory.

(** ** [JSON.parse] never runs out of fuel *)

Section ParserFuel.

Lemma skip_ws_length s : (length (skip_ws s) <= length s)%nat.
Proof.
  induction s as [|c r IH]; simpl; [lia|].
  destruct (is_json_ws c); simpl; lia.
Qed.

Lemma parse_string_body_length s :
  forall str rest,
    parse_string_body s = Some (str, rest) -> (length rest < length s)%nat.
Proof.
  remember (length s) as n eqn:Hn. revert s Hn.
  induction n as [n IH] using lt_wf_ind. intros s Hn str rest.
  assert (Hrec : forall t u str' rest',
             (length t < n)%nat ->
             match parse_string_body t with
             | Some (str0, rest0) => Some (u :: str0, rest0)
             | None => None
             end = Some (str', rest') ->
             (length rest' < length t)%nat).
  { intros t u str' rest' Ht Heq.
    destruct (parse_string_body t) as [[str0 rest0]|] eqn:E; [|discriminate].
    injection Heq as _ <-. exact (IH _ Ht t eq_refl _ _ E). }
  destruct s as [|c r]; [discriminate|]. cbn [parse_string_body].
  destruct (c =? 34); [intros [= _ <-]; subst n; simpl; lia|].
  destruct (c =? 92).
  - destruct r as [|e r1]; [discriminate|].
    repeat match goal with
           | |- context [if e =? ?k then _ else _] =>
               destruct (e =? k);
               [intros Heq; apply Hrec in Heq; subst n; simpl in *; lia|]
           end.
    destruct (e =? 117); [|discriminate].
    destruct r1 as [|h1 [|h2 [|h3 [|h4 r2]]]]; try discriminate.
    destruct (hex4_value h1 h2 h3 h4); [|discriminate].
    intros Heq; apply Hrec in Heq; subst n; simpl in *; lia.
  - destruct (c <? 32); [discriminate|].
    intros Heq; apply Hrec in Heq; subst n; simpl in *; lia.
Qed.

Lemma span_digits_length s :
  (length (snd (span_digits s)) <= length s)%nat.
Proof.
  induction s as [|c r IH]; simpl; [lia|].
  destruct (is_digit c); [|simpl; lia].
  destruct (span_digits r). simpl in *. lia.
Qed.

Lemma lex_int_part_length s ip r :
  lex_int_part s = Some (ip, r) -> (length r < length s)%nat.
Proof.
  destruct s as [|c t]; [discriminate|]. cbn [lex_int_part].
  destruct (c =? 48); [intros [= _ <-]; simpl; lia|].
  destruct (is_digit c); [|discriminate].
  pose proof (span_digits_length t) as Hspan.
  destruct (span_digits t) as [ds r']. intros [= _ <-]. simpl in *. lia.
Qed.

Lemma lex_frac_part_length s fp r :
  lex_frac_part s = Some (fp, r) -> (length r <= length s)%nat.
Proof.
  unfold lex_frac_part.
  destruct s as [|c t]; [intros [= _ <-]; lia|].
  destruct (N.eqb_spec c 46) as [->|Hne].
  - pose proof (span_digits_length t) as Hspan.
    destruct (span_digits t) as [[|d ds] r']; [discriminate|].
    intros [= _ <-]. simpl in *. lia.
  - assert (Heq : forall A (x y : A),
               match c with 46 => x | _ => y end = y).
    { intros A x y. destruct c as [|p]; [reflexivity|].
      repeat (destruct p as [p|p|]; try reflexivity). congruence. }
    rewrite Heq. intros [= _ <-]. lia.
Qed.

Lemma lex_exp_part_length s ep r :
  lex_exp_part s = Some (ep, r) -> (length r <= length s)%nat.
Proof.
  unfold lex_exp_part.
  destruct s as [|c t]; [intros [= _ <-]; lia|].
  destruct ((c =? 101) || (c =? 69)); [|intros [= _ <-]; lia].
  assert (Hsign : exists sign r1,
             match t with
             | 43 :: r1 => ([43], r1)
             | 45 :: r1 => ([45], r1)
             | _ => ([], t)
             end = (sign, r1) /\ (length r1 <= length t)%nat).
  { destruct t as [|d t']; [now exists [], []|].
    destruct (N.eqb_spec d 43) as [->|H43]; [exists [43], t'; simpl; split; [reflexivity|lia]|].
    destruct (N.eqb_spec d 45) as [->|H45]; [exists [45], t'; simpl; split; [reflexivity|lia]|].
    exists [], (d :: t'). split; [|lia].
    destruct d as [|p]; [reflexivity|].
    repeat (destruct p as [p|p|]; try reflexivity); congruence. }
  destruct Hsign as (sign & r1 & -> & Hr1).
  pose proof (span_digits_length r1) as Hspan.
  destruct (span_digits r1) as [[|d ds] r']; [discriminate|].
  intros [= _ <-]. simpl in *. lia.
Qed.

Lemma lex_number_length s literal r :
  lex_number s = Some (literal, r) -> (length r < length s)%nat.
Proof.
  unfold lex_number.
  assert (Hsign : exists sign s1,
             match s with
             | 45 :: r0 => ([45], r0)
             | _ => ([], s)
             end = (sign, s1) /\ (length s1 <= length s)%nat).
  { destruct s as [|d t]; [now exists [], []|].
    destruct (N.eqb_spec d 45) as [->|H45];
      [exists [45], t; simpl; split; [reflexivity|lia]|].
    exists [], (d :: t). split; [|lia].
    destruct d as [|p]; [reflexivity|].
    repeat (destruct p as [p|p|]; try reflexivity); congruence. }
  destruct Hsign as (sign & s1 & -> & Hs1).
  destruct (lex_int_part s1) as [[ip s2]|] eqn:Hint; [|discriminate].
  destruct (lex_frac_part s2) as [[fp s3]|] eqn:Hfrac; [|discriminate].
  destruct (lex_exp_part s3) as [[ep s4]|] eqn:Hexp; [|discriminate].
  intros [= _ <-].
  apply lex_int_part_length in Hint. apply lex_frac_part_length in Hfrac.
  apply lex_exp_part_length in Hexp. lia.
Qed.

Lemma parse_map_Parsed {A B} (f : A -> B) p b rest :
  parse_map f p = Parsed b rest -> exists a, p = Parsed a rest.
Proof. destruct p; [intros [= _ <-]; eauto | discriminate..]. Qed.

Lemma parse_map_OutOfFuel {A B} (f : A -> B) p :
  parse_map f p = OutOfFuel -> p = OutOfFuel.
Proof. now destruct p. Qed.

(** Each parsing function consumes at least one character. *)
Lemma parse_consumes fuel :
  (forall s v r, parse_value fuel s = Parsed v r ->
                 (length r < length s)%nat)
  /\ (forall s vs r, parse_elements fuel s = Parsed vs r ->
                     (length r < length s)%nat)
  /\ (forall s ms r, parse_members fuel s = Parsed ms r ->
                     (length r < length s)%nat).
Proof.
  induction fuel as [|fuel (IHv & IHe & IHm)];
    [repeat split; intros; discriminate|].
  repeat split.
  - intros s v r. cbn [parse_value].
    destruct s as [|c t]; [discriminate|].
    destruct (c =? 34).
    { destruct (parse_string_body t) as [[str rest]|] eqn:E; [|discriminate].
      intros [= _ <-]. apply parse_string_body_length in E. simpl. lia. }
    destruct (c =? 91).
    { pose proof (skip_ws_length t) as Hws.
      destruct (skip_ws t) as [|d rest]; [discriminate|].
      destruct (d =? 93); [intros [= _ <-]; simpl in *; lia|].
      intros H. apply parse_map_Parsed in H as [vs H].
      apply IHe in H. simpl in *. lia. }
    destruct (c =? 123).
    { pose proof (skip_ws_length t) as Hws.
      destruct (skip_ws t) as [|d rest]; [discriminate|].
      destruct (d =? 125); [intros [= _ <-]; simpl in *; lia|].
      intros H. apply parse_map_Parsed in H as [ms H].
      apply IHm in H. simpl in *. lia. }
    destruct (startsWith (c :: t) (lit "null")) eqn:Hnull.
    { intros [= _ <-]. apply startsWith_spec in Hnull as [post Hpost].
      apply (f_equal length) in Hpost. rewrite length_app in Hpost.
      change (length (lit "null")) with 4%nat in Hpost.
      rewrite length_drop. cbn [length] in *. lia. }
    destruct (startsWith (c :: t) (lit "true")) eqn:Htrue.
    { intros [= _ <-]. apply startsWith_spec in Htrue as [post Hpost].
      apply (f_equal length) in Hpost. rewrite length_app in Hpost.
      change (length (lit "true")) with 4%nat in Hpost.
      rewrite length_drop. cbn [length] in *. lia. }
    destruct (startsWith (c :: t) (lit "false")) eqn:Hfalse.
    { intros [= _ <-]. apply startsWith_spec in Hfalse as [post Hpost].
      apply (f_equal length) in Hpost. rewrite length_app in Hpost.
      change (length (lit "false")) with 5%nat in Hpost.
      rewrite length_drop. cbn [length] in *. lia. }
    destruct (lex_number (c :: t)) as [[literal rest]|] eqn:E; [|discriminate].
    intros [= _ <-]. now apply lex_number_length in E.
  - intros s vs r. cbn [parse_elements].
    destruct (parse_value fuel s) as [v r0| |] eqn:E; try discriminate.
    apply IHv in E. pose proof (skip_ws_length r0) as Hws.
    destruct (skip_ws r0) as [|d rest]; [discriminate|].
    destruct (d =? 44).
    { intros H. apply parse_map_Parsed in H as [vs' H]. apply IHe in H.
      pose proof (skip_ws_length rest). simpl in *. lia. }
    destruct (d =? 93); [|discriminate].
    intros [= _ <-]. simpl in *. lia.
  - intros s ms r. cbn [parse_members].
    destruct s as [|c t]; [discriminate|].
    destruct (c =? 34); [|discriminate].
    destruct (parse_string_body t) as [[key r1]|] eqn:E; [|discriminate].
    apply parse_string_body_length in E.
    pose proof (skip_ws_length r1) as Hws1.
    destruct (skip_ws r1) as [|d r2]; [discriminate|].
    destruct (d =? 58); [|discriminate].
    destruct (parse_value fuel (skip_ws r2)) as [v r3| |] eqn:Ev;
      try discriminate.
    apply IHv in Ev. pose proof (skip_ws_length r2) as Hws2.
    pose proof (skip_ws_length r3) as Hws3.
    destruct (skip_ws r3) as [|d' r4]; [discriminate|].
    destruct (d' =? 44).
    { intros H. apply parse_map_Parsed in H as [ms' H]. apply IHm in H.
      pose proof (skip_ws_length r4). simpl in *. lia. }
    destruct (d' =? 125); [|discriminate].
    intros [= _ <-]. simpl in *. lia.
Qed.

(** Two units of fuel for each character, and two or three more, are
    enough: the parsing functions then end in a value or in a syntax
    error. *)
Lemma parse_fuel_enough fuel :
  (forall s, (2 * length s + 2 <= fuel)%nat ->
             parse_value fuel s <> OutOfFuel)
  /\ (forall s, (2 * length s + 3 <= fuel)%nat ->
                parse_elements fuel s <> OutOfFuel)
  /\ (forall s, (2 * length s + 3 <= fuel)%nat ->
                parse_members fuel s <> OutOfFuel).
Proof.
  induction fuel as [|fuel (IHv & IHe & IHm)];
    [repeat split; intros; lia|].
  destruct (parse_consumes fuel) as (Cv & Ce & Cm).
  repeat split.
  - intros s Hfuel. cbn [parse_value].
    destruct s as [|c t]; [discriminate|].
    destruct (c =? 34);
      [destruct (parse_string_body t) as [[? ?]|]; discriminate|].
    destruct (c =? 91).
    { pose proof (skip_ws_length t) as Hws.
      destruct (skip_ws t) as [|d rest]; [discriminate|].
      destruct (d =? 93); [discriminate|].
      intros H. apply parse_map_OutOfFuel in H. revert H.
      apply IHe. simpl in *. lia. }
    destruct (c =? 123).
    { pose proof (skip_ws_length t) as Hws.
      destruct (skip_ws t) as [|d rest]; [discriminate|].
      destruct (d =? 125); [discriminate|].
      intros H. apply parse_map_OutOfFuel in H. revert H.
      apply IHm. simpl in *. lia. }
    destruct (startsWith (c :: t) (lit "null")); [discriminate|].
    destruct (startsWith (c :: t) (lit "true")); [discriminate|].
    destruct (startsWith (c :: t) (lit "false")); [discriminate|].
    destruct (lex_number (c :: t)) as [[? ?]|]; discriminate.
  - intros s Hfuel. cbn [parse_elements].
    pose proof (IHv s ltac:(lia)) as Hv.
    destruct (parse_value fuel s) as [v r0| |] eqn:E;
      [|discriminate|congruence].
    apply Cv in E. pose proof (skip_ws_length r0) as Hws.
    destruct (skip_ws r0) as [|d rest]; [discriminate|].
    destruct (d =? 44).
    { intros H. apply parse_map_OutOfFuel in H. revert H.
      apply IHe. pose proof (skip_ws_length rest). simpl in *. lia. }
    destruct (d =? 93); discriminate.
  - intros s Hfuel. cbn [parse_members].
    destruct s as [|c t]; [discriminate|].
    destruct (c =? 34); [|discriminate].
    destruct (parse_string_body t) as [[key r1]|] eqn:E; [|discriminate].
    apply parse_string_body_length in E.
    pose proof (skip_ws_length r1) as Hws1.
    destruct (skip_ws r1) as [|d r2]; [discriminate|].
    destruct (d =? 58); [|discriminate].
    pose proof (skip_ws_length r2) as Hws2.
    pose proof (IHv (skip_ws r2) ltac:(simpl in *; lia)) as Hv.
    destruct (parse_value fuel (skip_ws r2)) as [v r3| |] eqn:Ev;
      [|discriminate|congruence].
    apply Cv in Ev. pose proof (skip_ws_length r3) as Hws3.
    destruct (skip_ws r3) as [|d' r4]; [discriminate|].
    destruct (d' =? 44).
    { intros H. apply parse_map_OutOfFuel in H. revert H.
      apply IHm. pose proof (skip_ws_length r4). simpl in *. lia. }
    destruct (d' =? 125); discriminate.
Qed.

(** So [JSON_parse] gives [None] only for a text that is not JSON. *)
Lemma JSON_parse_fuel text :
  parse_value (2 * length text + 2) (skip_ws text) <> OutOfFuel.
Proof.
  apply parse_fuel_enough. pose proof (skip_ws_length text). lia.
Qed.

End ParserFuel.

(** ** The history across sessions *)

Section StoredHistory.

Context (env : Env).

(** With room in the store, [saveHistory] writes the stringified list
    under the history key and makes no outside call. *)
Lemma saveHistory_store s :
  storage_has_room env
    (<[IMAGE_HISTORY_KEY := JSON_stringify_history (imageHistory s)]>
       (localStorage s)) = true ->
  localStorage (saveHistory env s)
  = <[IMAGE_HISTORY_KEY := JSON_stringify_history (imageHistory s)]>
      (localStorage s)
  /\ effects (saveHistory env s) = effects s.
Proof.
  intros Hroom. unfold saveHistory, localStorage_setItem. run_script.
  now rewrite Hroom.
Qed.

(** Without room, it leaves the store as it was and logs the failure. *)
Lemma saveHistory_no_room s :
  storage_has_room env
    (<[IMAGE_HISTORY_KEY := JSON_stringify_history (imageHistory s)]>
       (localStorage s)) = false ->
  localStorage (saveHistory env s) = localStorage s
  /\ effects (saveHistory env s)
     = effects s
       ++ [ConsoleError (lit "Failed to save image history to local storage:")].
Proof.
  intros Hroom. unfold saveHistory, localStorage_setItem. run_script.
  now rewrite Hroom.
Qed.

(** C7. When the store accepts the write, the history that
    [saveHistory] stores is the one [loadHistory] reads on a fresh page
    over that store: the same entries in the same order, each with its
    image reference, prompt and timestamp, and nothing is logged. *)
Theorem saved_history_loads_back (s : State) :
  storage_has_room env
    (<[IMAGE_HISTORY_KEY := JSON_stringify_history (imageHistory s)]>
       (localStorage s)) = true ->
  let store := localStorage (saveHistory env s) in
  exists s',
    loadHistory (fresh_page store) = Some s'
    /\ imageHistory s' = imageHistory s
    /\ s' = set_imageHistory (imageHistory s) (fresh_page store).
Proof.
  intros Hroom store. subst store.
  rewrite (proj1 (saveHistory_store s Hroom)).
  eexists. split; [|split; [|reflexivity]]; [|reflexivity].
  unfold loadHistory. cbn [localStorage fresh_page].
  rewrite lookup_insert_eq, truthy_JSON_stringify_history.
  now rewrite JSON_parse_stringify_history, as_history_history_json.
Qed.

End StoredHistory.

Lemma saved_history_loads_back_witness :
  let env := Sample.env_with None None Sample.one_image in
  let h := [mkEntry (lit "data:image/jpeg;base64,QUJD") (lit "a cat")
              1700000000000%Z;
            mkEntry (lit "data:image/jpeg;base64,REVG") [34; 55357; 10; 92]
              1700000000001%Z] in
  let s := set_imageHistory h (Sample.page (lit "a dog")) in
  exists s',
    loadHistory (fresh_page (localStorage (saveHistory env s))) = Some s'
    /\ imageHistory s' = h.
Proof.
  intros env h s.
  destruct (saved_history_loads_back env s eq_refl) as (s' & Hload & Hh & _).
  exists s'. split; [exact Hload | exact Hh].
Defined.

(** * Further properties of the script *)

(** ** History management *)

(** Reduces the field reads over field updates, and nothing else. *)
Ltac page_fields :=
  cbn [prompt imageSize aspectRatio downloadLink imageHistory userApiKey
       useCustomApiKey statusEl outputImage_src outputImage_display
       downloadButton_display loadingSpinner_display
       imageHistorySection_display historyContainerEl controls
       apiKeyInputEl_value useCustomApiKeyCheckbox_checked
       apiKeyInputEl_classList localStorage effects set_prompt
       set_imageSize set_aspectRatio set_downloadLink set_imageHistory
       set_userApiKey set_useCustomApiKey set_statusEl set_outputImage_src
       set_outputImage_display set_downloadButton_display
       set_loadingSpinner_display set_imageHistorySection_display
       set_historyContainerEl set_controls set_apiKeyInputEl_value
       set_useCustomApiKeyCheckbox_checked set_apiKeyInputEl_classList
       set_localStorage set_effects showStatusError emit].

Section HistoryOperations.

Context (env : Env).

Lemma saveHistory_page s :
  imageHistory (saveHistory env s) = imageHistory s
  /\ historyContainerEl (saveHistory env s) = historyContainerEl s
  /\ imageHistorySection_display (saveHistory env s)
     = imageHistorySection_display s
  /\ statusEl (saveHistory env s) = statusEl s.
Proof.
  unfold saveHistory, localStorage_setItem. run_script.
  now destruct (storage_has_room env _).
Qed.

Lemma render_loop_store k s :
  localStorage (render_loop k s) = localStorage s
  /\ effects (render_loop k s) = effects s
  /\ statusEl (render_loop k s) = statusEl s.
Proof.
  revert s. induction k as [|i IH]; intros s; simpl; [repeat split|].
  destruct (imageHistory s !! i) as [item|]; [|apply IH].
  destruct (IH (set_historyContainerEl
                  (historyContainerEl s ++ [history_item item]) s))
    as (Hl & He & Hs).
  now rewrite Hl, He, Hs.
Qed.

Lemma renderImageHistory_store s :
  localStorage (renderImageHistory s) = localStorage s
  /\ effects (renderImageHistory s) = effects s
  /\ statusEl (renderImageHistory s) = statusEl s.
Proof.
  unfold renderImageHistory. cbn.
  destruct (length (imageHistory s) =? 0)%nat; [repeat split|].
  destruct (render_loop_store (length (imageHistory s))
              (set_imageHistorySection_display DisplayBlock
                 (set_historyContainerEl [] s))) as (Hl & He & Hs).
  now rewrite Hl, He, Hs.
Qed.

(** X1. A click on the clear-history button empties the history list,
    removes every rendered item, hides the history section and reports
    that the history was cleared; when the store accepts the write, the
    stored history is the empty array and a fresh page over that store
    loads an empty history. *)
Theorem clearing_empties_history (s : State) :
  let s' := clearHistoryButton_click env s in
  imageHistory s' = []
  /\ historyContainerEl s' = []
  /\ imageHistorySection_display s' = DisplayNone
  /\ statusEl s' = error_status (lit "Image history cleared.")
  /\ (storage_has_room env
        (<[IMAGE_HISTORY_KEY := lit "[]"]> (localStorage s)) = true ->
      localStorage s' = <[IMAGE_HISTORY_KEY := lit "[]"]> (localStorage s)
      /\ effects s' = effects s
      /\ exists s'', loadHistory (fresh_page (localStorage s')) = Some s''
                     /\ imageHistory s'' = []).
Proof.
  intros s'. subst s'.
  unfold clearHistoryButton_click, clearImageHistory.
  set (s0 := set_imageHistory [] s).
  assert (Hh : imageHistory (saveHistory env s0) = [])
    by apply saveHistory_imageHistory.
  destruct (renderImageHistory_reverse (saveHistory env s0)) as [Hc Hd].
  rewrite Hh in Hc, Hd. cbn in Hc, Hd.
  split; [cbn; now rewrite renderImageHistory_imageHistory|].
  split; [exact Hc|]. split; [exact Hd|]. split; [reflexivity|].
  intros Hroom.
  destruct (saveHistory_store env s0 Hroom) as [Hstore Heff].
  destruct (renderImageHistory_store (saveHistory env s0)) as (Hl & He & _).
  cbn [localStorage showStatusError set_statusEl effects].
  rewrite Hl, He, Hstore, Heff.
  split; [reflexivity|]. split; [reflexivity|].
  eexists. split.
  - unfold loadHistory. cbn [localStorage fresh_page].
    rewrite lookup_insert_eq. reflexivity.
  - reflexivity.
Qed.

(** The loop only appends to the history container. *)
Lemma render_loop_closed_form k s :
  (k <= length (imageHistory s))%nat ->
  render_loop k s
  = set_historyContainerEl
      (historyContainerEl s
       ++ map history_item (rev (take k (imageHistory s)))) s.
Proof.
  revert s. induction k as [|i IH]; intros s Hk.
  - cbn. rewrite app_nil_r. now destruct s.
  - cbn [render_loop].
    destruct (lookup_lt_is_Some_2 (imageHistory s) i) as [item Hitem]; [lia|].
    rewrite Hitem, IH by (cbn; lia). cbn.
    rewrite (take_S_r _ _ _ Hitem), rev_app_distr. cbn.
    now rewrite <- app_assoc.
Qed.

(** [renderImageHistory] as two field updates. *)
Lemma renderImageHistory_closed_form s :
  renderImageHistory s
  = set_historyContainerEl (map history_item (rev (imageHistory s)))
      (set_imageHistorySection_display
         (if (length (imageHistory s) =? 0)%nat
          then DisplayNone else DisplayBlock) s).
Proof.
  unfold renderImageHistory.
  cbn [imageHistory set_historyContainerEl].
  destruct (Nat.eqb_spec (length (imageHistory s)) 0) as [Hz|Hnz].
  - apply length_zero_iff_nil in Hz.
    replace (map history_item (rev (imageHistory s)))
      with (@nil HistoryItemEl) by (now rewrite Hz).
    reflexivity.
  - rewrite render_loop_closed_form by reflexivity.
    cbn. now rewrite firstn_all.
Qed.

(** X2. Rendering replaces the history container by one item for each
    entry of the history, the most recent entry first, each item
    carrying the entry's image, its prompt and a download file name made
    of its timestamp; it shows the history section exactly when the
    history is not empty, changes nothing else on the page, and
    rendering twice is the same as rendering once. *)
Theorem render_lists_history_newest_first (s : State) :
  let s' := renderImageHistory s in
  historyContainerEl s' = map history_item (rev (imageHistory s))
  /\ (forall h e, imageHistory s = h ++ [e] ->
        historyContainerEl s'
        = mkItemEl (url e) (entry_prompt e) (entry_prompt e) (url e)
            (history_filename e)
          :: map history_item (rev h))
  /\ imageHistorySection_display s'
     = (if (length (imageHistory s) =? 0)%nat
        then DisplayNone else DisplayBlock)
  /\ s' = set_historyContainerEl (historyContainerEl s')
            (set_imageHistorySection_display
               (imageHistorySection_display s') s)
  /\ renderImageHistory s' = s'.
Proof.
  intros s'. subst s'. rewrite !renderImageHistory_closed_form.
  split; [reflexivity|]. split.
  - intros h e Hh. cbn. now rewrite Hh, rev_app_distr.
  - split; [reflexivity|]. split; reflexivity.
Qed.

(** X3. [addImageToHistory] appends exactly one entry, made of the
    given image reference and prompt and stamped with the clock, shows
    the history section and renders the new entry first; when the store
    accepts the write, a fresh page over the store loads the history
    with the new entry at its end. *)
Theorem adding_appends_and_persists (s : State) u p :
  let e := mkEntry u p (Date_now env) in
  let s' := addImageToHistory env u p s in
  imageHistory s' = imageHistory s ++ [e]
  /\ historyContainerEl s'
     = history_item e :: map history_item (rev (imageHistory s))
  /\ imageHistorySection_display s' = DisplayBlock
  /\ (storage_has_room env
        (<[IMAGE_HISTORY_KEY := JSON_stringify_history (imageHistory s ++ [e])]>
           (localStorage s)) = true ->
      exists s'', loadHistory (fresh_page (localStorage s')) = Some s''
                  /\ imageHistory s'' = imageHistory s ++ [e]).
Proof.
  intros e s'. subst s'. unfold addImageToHistory.
  set (s0 := set_imageHistory (imageHistory s ++ [e]) s).
  rewrite renderImageHistory_closed_form.
  rewrite saveHistory_imageHistory. cbn [imageHistory set_imageHistory s0].
  cbn [historyContainerEl set_historyContainerEl imageHistory
       set_imageHistorySection_display imageHistorySection_display
       localStorage].
  split; [apply saveHistory_imageHistory|].
  split; [now rewrite rev_app_distr|].
  split; [rewrite length_app; cbn; now rewrite Nat.add_1_r|].
  intros Hroom.
  match goal with
  | |- context [saveHistory env ?x] =>
      rewrite (proj1 (saveHistory_store env x Hroom))
  end.
  cbn [imageHistory set_imageHistory localStorage set_localStorage].
  eexists. split.
  - unfold loadHistory. cbn [localStorage fresh_page].
    rewrite lookup_insert_eq, truthy_JSON_stringify_history.
    now rewrite JSON_parse_stringify_history, as_history_history_json.
  - reflexivity.
Qed.

(** X4. When the store refuses the write, clearing the history still
    empties the list and the rendered items on the page, but the stored
    history stays as it was and the failure is only logged to the
    console. *)
Theorem clearing_survives_full_store (s : State) :
  storage_has_room env
    (<[IMAGE_HISTORY_KEY := lit "[]"]> (localStorage s)) = false ->
  let s' := clearHistoryButton_click env s in
  imageHistory s' = []
  /\ historyContainerEl s' = []
  /\ localStorage s' = localStorage s
  /\ effects s'
     = effects s
       ++ [ConsoleError (lit "Failed to save image history to local storage:")]
  /\ statusEl s' = error_status (lit "Image history cleared.").
Proof.
  intros Hroom s'. subst s'.
  unfold clearHistoryButton_click, clearImageHistory.
  set (s0 := set_imageHistory [] s).
  rewrite renderImageHistory_closed_form. page_fields.
  rewrite saveHistory_imageHistory.
  destruct (saveHistory_no_room env s0 Hroom) as [Hstore Heff].
  rewrite Hstore, Heff. repeat split; reflexivity.
Qed.

End HistoryOperations.

(** ** Custom API key management *)

Section KeySettings.

Context (env : Env).

(** Saving the key settings writes the store and the console only. *)
Lemma saveCustomApiKeySettings_frame s :
  let s' := saveCustomApiKeySettings env s in
  s' = set_effects (effects s') (set_localStorage (localStorage s') s).
Proof.
  unfold saveCustomApiKeySettings, localStorage_setItem. run_script.
  destruct (storage_has_room env _); cbn; [|now destruct s].
  destruct (storage_has_room env _); cbn; now destruct s.
Qed.

(** With room in the store for both writes, the key and the toggle are
    stored under their two names. *)
Lemma saveCustomApiKeySettings_store s :
  let store1 := <[CUSTOM_API_KEY_STORAGE_KEY := userApiKey s]> (localStorage s) in
  let store2 :=
    <[USE_CUSTOM_KEY_STORAGE_KEY := JSON_stringify_bool (useCustomApiKey s)]>
      store1 in
  storage_has_room env store1 = true ->
  storage_has_room env store2 = true ->
  saveCustomApiKeySettings env s = set_localStorage store2 s.
Proof.
  intros store1 store2 H1 H2.
  unfold saveCustomApiKeySettings, localStorage_setItem. run_script.
  subst store1 store2. rewrite H1. page_fields. rewrite H2. page_fields.
  now destruct s.
Qed.

(** Reading back the two names of a store that holds a key and a
    stringified toggle. *)
Lemma loadCustomApiKeySettings_stored store key toggle :
  store !! CUSTOM_API_KEY_STORAGE_KEY = Some key ->
  store !! USE_CUSTOM_KEY_STORAGE_KEY = Some (JSON_stringify_bool toggle) ->
  exists s',
    loadCustomApiKeySettings (fresh_page store) = Some s'
    /\ userApiKey s' = key
    /\ apiKeyInputEl_value s' = key
    /\ useCustomApiKey s' = toggle
    /\ useCustomApiKeyCheckbox_checked s' = toggle
    /\ disabled ApiKeyInput s' = negb toggle.
Proof.
  intros Hkey Hflag. unfold loadCustomApiKeySettings.
  cbn [localStorage fresh_page]. rewrite Hkey.
  destruct key as [|c key]; cbn [truthy localStorage fresh_page
    set_apiKeyInputEl_value set_userApiKey];
    rewrite Hflag; destruct toggle; eexists; (split; [reflexivity|]);
    repeat split; reflexivity.
Qed.

(** X5. The key settings survive a reload: when the store accepts both
    writes of [saveCustomApiKeySettings], [loadCustomApiKeySettings] on
    a fresh page over the store restores the key text (in the variable
    and in the input), the toggle (in the variable and in the box), and
    enables the key input exactly when the toggle is on. *)
Theorem saved_key_settings_load_back (s : State) :
  let store1 := <[CUSTOM_API_KEY_STORAGE_KEY := userApiKey s]> (localStorage s) in
  let store2 :=
    <[USE_CUSTOM_KEY_STORAGE_KEY := JSON_stringify_bool (useCustomApiKey s)]>
      store1 in
  storage_has_room env store1 = true ->
  storage_has_room env store2 = true ->
  exists s',
    loadCustomApiKeySettings
      (fresh_page (localStorage (saveCustomApiKeySettings env s))) = Some s'
    /\ userApiKey s' = userApiKey s
    /\ apiKeyInputEl_value s' = userApiKey s
    /\ useCustomApiKey s' = useCustomApiKey s
    /\ useCustomApiKeyCheckbox_checked s' = useCustomApiKey s
    /\ disabled ApiKeyInput s' = negb (useCustomApiKey s).
Proof.
  intros store1 store2 H1 H2.
  rewrite (saveCustomApiKeySettings_store s H1 H2).
  cbn [localStorage set_localStorage].
  apply loadCustomApiKeySettings_stored.
  - subst store2 store1.
    rewrite lookup_insert_ne by discriminate. apply lookup_insert_eq.
  - apply lookup_insert_eq.
Qed.

(** X6. When the stored toggle is not JSON, loading the key settings
    logs the failure and falls back on the defaults: no custom key (even
    when a key is stored and was just read), toggle off, box unticked,
    key input empty and disabled. *)
Theorem corrupt_toggle_resets_key_settings (s : State) flag :
  localStorage s !! USE_CUSTOM_KEY_STORAGE_KEY = Some flag ->
  JSON_parse flag = None ->
  exists s',
    loadCustomApiKeySettings s = Some s'
    /\ userApiKey s' = []
    /\ apiKeyInputEl_value s' = []
    /\ useCustomApiKey s' = false
    /\ useCustomApiKeyCheckbox_checked s' = false
    /\ disabled ApiKeyInput s' = true
    /\ effects s'
       = effects s
         ++ [ConsoleError
               (lit "Failed to load custom API key settings from local storage:")]
    /\ localStorage s' = localStorage s.
Proof.
  intros Hflag Hparse. unfold loadCustomApiKeySettings.
  destruct (localStorage s !! CUSTOM_API_KEY_STORAGE_KEY) as [key|];
    [destruct (truthy key)|];
    page_fields; rewrite Hflag, Hparse;
    eexists; (split; [reflexivity|]); repeat split; reflexivity.
Qed.

(** X7. Typing in the key input stores the text as typed in the
    variable, removes the red highlight from the input and leaves the
    toggle and the controls as they are; when the store accepts the
    writes, the text and the toggle are in the store at once. *)
Theorem typed_key_is_written_through (s : State) value :
  let s' := apiKeyInputEl_input env value s in
  userApiKey s' = value
  /\ apiKeyInputEl_value s' = value
  /\ useCustomApiKey s' = useCustomApiKey s
  /\ controls s' = controls s
  /\ apiKeyInputEl_classList s' = apiKeyInputEl_classList s ∖ highlight
  /\ ~ highlighted s'
  /\ (let store1 :=
        <[CUSTOM_API_KEY_STORAGE_KEY := value]> (localStorage s) in
      let store2 :=
        <[USE_CUSTOM_KEY_STORAGE_KEY :=
            JSON_stringify_bool (useCustomApiKey s)]> store1 in
      storage_has_room env store1 = true ->
      storage_has_room env store2 = true ->
      localStorage s' !! CUSTOM_API_KEY_STORAGE_KEY = Some value
      /\ localStorage s' !! USE_CUSTOM_KEY_STORAGE_KEY
         = Some (JSON_stringify_bool (useCustomApiKey s))).
Proof.
  intros s'. subst s'. unfold apiKeyInputEl_input, clear_highlight.
  page_fields.
  set (s0 := set_userApiKey value (set_apiKeyInputEl_value value s)).
  pose proof (saveCustomApiKeySettings_frame s0) as Hframe. cbn zeta in Hframe.
  assert (Hclass : apiKeyInputEl_classList (saveCustomApiKeySettings env s0)
                   = apiKeyInputEl_classList s)
    by (rewrite Hframe; reflexivity).
  do 5 (split; [rewrite Hframe; reflexivity|]).
  split.
  - unfold highlighted. page_fields. rewrite Hclass.
    unfold highlight. set_solver.
  - intros H1 H2.
    rewrite (saveCustomApiKeySettings_store s0 H1 H2). page_fields. split.
    + rewrite lookup_insert_ne by discriminate. apply lookup_insert_eq.
    + apply lookup_insert_eq.
Qed.

(** X8. Ticking or unticking the custom-key box sets the toggle to the
    state of the box, enables the key input exactly when the box is
    ticked, leaves the other controls as they are and removes the red
    highlight; when the store accepts the writes, the key and the new
    toggle are in the store at once. *)
Theorem toggled_box_is_written_through (s : State) checked :
  let s' := useCustomApiKeyCheckbox_change env checked s in
  useCustomApiKey s' = checked
  /\ useCustomApiKeyCheckbox_checked s' = checked
  /\ disabled ApiKeyInput s' = negb checked
  /\ (forall c, c <> ApiKeyInput -> disabled c s' = disabled c s)
  /\ userApiKey s' = userApiKey s
  /\ ~ highlighted s'
  /\ (let store1 :=
        <[CUSTOM_API_KEY_STORAGE_KEY := userApiKey s]> (localStorage s) in
      let store2 :=
        <[USE_CUSTOM_KEY_STORAGE_KEY := JSON_stringify_bool checked]>
          store1 in
      storage_has_room env store1 = true ->
      storage_has_room env store2 = true ->
      localStorage s' !! CUSTOM_API_KEY_STORAGE_KEY = Some (userApiKey s)
      /\ localStorage s' !! USE_CUSTOM_KEY_STORAGE_KEY
         = Some (JSON_stringify_bool checked)).
Proof.
  intros s'. subst s'. unfold useCustomApiKeyCheckbox_change, clear_highlight.
  page_fields.
  match goal with
  | |- context [saveCustomApiKeySettings env ?x] => set (s0 := x)
  end.
  pose proof (saveCustomApiKeySettings_frame s0) as Hframe. cbn zeta in Hframe.
  assert (Hclass : apiKeyInputEl_classList (saveCustomApiKeySettings env s0)
                   = apiKeyInputEl_classList s)
    by (rewrite Hframe; reflexivity).
  do 3 (split; [rewrite Hframe; reflexivity|]).
  split; [|split; [rewrite Hframe; reflexivity|split]].
  - intros c Hc. rewrite Hframe. destruct c; try reflexivity. congruence.
  - unfold highlighted. page_fields. rewrite Hclass.
    unfold highlight. set_solver.
  - intros H1 H2.
    rewrite (saveCustomApiKeySettings_store s0 H1 H2). page_fields. split.
    + rewrite lookup_insert_ne by discriminate. apply lookup_insert_eq.
    + apply lookup_insert_eq.
Qed.

End KeySettings.

(** ** Page load *)

Section PageLoad.

(** Loading the key settings leaves the history and the store alone,
    and only adds to the console. *)
Lemma loadCustomApiKeySettings_frame s s' :
  loadCustomApiKeySettings s = Some s' ->
  imageHistory s' = imageHistory s
  /\ historyContainerEl s' = historyContainerEl s
  /\ imageHistorySection_display s' = imageHistorySection_display s
  /\ localStorage s' = localStorage s
  /\ exists logged, effects s' = effects s ++ logged.
Proof.
  unfold loadCustomApiKeySettings.
  set (s1 := match localStorage s !! CUSTOM_API_KEY_STORAGE_KEY with
             | Some k => if truthy k
                         then set_apiKeyInputEl_value k (set_userApiKey k s)
                         else s
             | None => s
             end).
  assert (H1 : imageHistory s1 = imageHistory s
               /\ historyContainerEl s1 = historyContainerEl s
               /\ imageHistorySection_display s1 = imageHistorySection_display s
               /\ localStorage s1 = localStorage s
               /\ effects s1 = effects s).
  { subst s1. destruct (localStorage s !! _) as [k|]; [|repeat split].
    destruct (truthy k); repeat split. }
  destruct H1 as (Hh & Hc & Hd & Hl & He).
  destruct (localStorage s1 !! USE_CUSTOM_KEY_STORAGE_KEY) as [flag|].
  - destruct (JSON_parse flag) as [v|].
    + destruct (as_bool v) as [b|]; [|discriminate].
      intros [= <-]. page_fields. rewrite Hh, Hc, Hd, Hl, He.
      repeat split. exists []. now rewrite app_nil_r.
    + intros [= <-]. page_fields. rewrite Hh, Hc, Hd, Hl, He.
      repeat split. now eexists.
  - intros [= <-]. page_fields. rewrite Hh, Hc, Hd, Hl, He.
    repeat split. exists []. now rewrite app_nil_r.
Qed.

(** Loading the key settings gives a page whenever the stored flag is
    absent, not JSON or a JSON boolean. *)
Lemma loadCustomApiKeySettings_typed s :
  toggle_text_typed (localStorage s !! USE_CUSTOM_KEY_STORAGE_KEY) = true ->
  exists s', loadCustomApiKeySettings s = Some s'.
Proof.
  unfold loadCustomApiKeySettings, toggle_text_typed.
  set (s1 := match localStorage s !! CUSTOM_API_KEY_STORAGE_KEY with
             | Some k => if truthy k
                         then set_apiKeyInputEl_value k (set_userApiKey k s)
                         else s
             | None => s
             end).
  assert (Hl : localStorage s1 = localStorage s).
  { subst s1. destruct (localStorage s !! _) as [k|]; [|reflexivity].
    now destruct (truthy k). }
  rewrite Hl.
  destruct (localStorage s !! USE_CUSTOM_KEY_STORAGE_KEY) as [flag|];
    [|intros _; now eexists].
  destruct (JSON_parse flag) as [v|]; [|intros _; now eexists].
  destruct (as_bool v) as [b|]; [intros _; now eexists | discriminate].
Qed.

(** Loading the history gives a page whenever the stored text is
    absent, empty, not JSON or the JSON of a typed history. *)
Lemma loadHistory_typed s :
  history_text_typed (localStorage s !! IMAGE_HISTORY_KEY) = true ->
  exists s', loadHistory s = Some s' /\ localStorage s' = localStorage s.
Proof.
  unfold loadHistory, history_text_typed.
  destruct (localStorage s !! IMAGE_HISTORY_KEY) as [text|];
    [|intros _; now eexists].
  destruct (truthy text); [|intros _; now eexists].
  destruct (JSON_parse text) as [v|]; [|intros _; now eexists].
  destruct (as_history v) as [h|]; [intros _; now eexists | discriminate].
Qed.

(** The stores over which the page loads in this model are exactly the
    typed ones. *)
Lemma initialize_typed_store store :
  typed_store store = true <-> is_Some (initialize store).
Proof.
  unfold typed_store, initialize. rewrite andb_true_iff. split.
  - intros [Hhistory Htoggle].
    destruct (loadHistory_typed (fresh_page store) Hhistory)
      as (s1 & Hload & Hstore).
    rewrite Hload. cbn [mbind option_bind].
    destruct (loadCustomApiKeySettings_typed (renderImageHistory s1))
      as (s2 & Hkeys).
    + rewrite (proj1 (renderImageHistory_store s1)), Hstore.
      exact Htoggle.
    + rewrite Hkeys. now eexists.
  - intros [s Hinit].
    destruct (loadHistory (fresh_page store)) as [s1|] eqn:Hload;
      [|discriminate].
    cbn [mbind option_bind] in Hinit.
    assert (Hstore : localStorage (renderImageHistory s1) = store).
    { rewrite (proj1 (renderImageHistory_store s1)).
      unfold loadHistory in Hload. cbn [localStorage fresh_page] in Hload.
      destruct (store !! IMAGE_HISTORY_KEY) as [text|];
        [|now injection Hload as <-].
      destruct (truthy text); [|now injection Hload as <-].
      destruct (JSON_parse text) as [v|]; [|now injection Hload as <-].
      destruct (as_history v); [now injection Hload as <-|discriminate]. }
    split.
    + unfold loadHistory, history_text_typed in *.
      cbn [localStorage fresh_page] in Hload.
      destruct (store !! IMAGE_HISTORY_KEY) as [text|]; [|reflexivity].
      destruct (truthy text); [|reflexivity].
      destruct (JSON_parse text) as [v|]; [|reflexivity].
      now destruct (as_history v).
    + revert Hinit. unfold loadCustomApiKeySettings, toggle_text_typed.
      set (s2 := match localStorage (renderImageHistory s1)
                         !! CUSTOM_API_KEY_STORAGE_KEY with
                 | Some k => if truthy k
                             then set_apiKeyInputEl_value k
                                    (set_userApiKey k (renderImageHistory s1))
                             else renderImageHistory s1
                 | None => renderImageHistory s1
                 end).
      assert (Hl : localStorage s2 = store).
      { subst s2. destruct (localStorage (renderImageHistory s1) !! _) as [k|];
          [|exact Hstore].
        destruct (truthy k); exact Hstore. }
      rewrite Hl.
      destruct (store !! USE_CUSTOM_KEY_STORAGE_KEY) as [flag|]; [|reflexivity].
      destruct (JSON_parse flag) as [v|]; [|reflexivity].
      now destruct (as_bool v).
Qed.

(** X9. A session that starts over a store holding the history that
    [saveHistory] wrote, and a custom-key flag that is absent, not JSON
    or a JSON boolean, has a page after load: it starts with that
    history, rendered most recent first, with the history section shown
    exactly when the history is not empty, and with the store as it
    found it. *)
Theorem startup_restores_history store h :
  store !! IMAGE_HISTORY_KEY = Some (JSON_stringify_history h) ->
  toggle_text_typed (store !! USE_CUSTOM_KEY_STORAGE_KEY) = true ->
  exists s,
    initialize store = Some s
    /\ imageHistory s = h
    /\ historyContainerEl s = map history_item (rev h)
    /\ imageHistorySection_display s
       = (if (length h =? 0)%nat then DisplayNone else DisplayBlock)
    /\ localStorage s = store.
Proof.
  intros Hstored Htoggle. unfold initialize, loadHistory.
  cbn [localStorage fresh_page]. rewrite Hstored.
  rewrite truthy_JSON_stringify_history, JSON_parse_stringify_history,
    as_history_history_json.
  cbn [mbind option_bind].
  destruct (loadCustomApiKeySettings_typed
              (renderImageHistory (set_imageHistory h (fresh_page store))))
    as (s & Hload).
  { now rewrite (proj1 (renderImageHistory_store _)). }
  exists s. split; [exact Hload|].
  apply loadCustomApiKeySettings_frame in Hload.
  destruct Hload as (Hh & Hc & Hd & Hl & _).
  rewrite Hh, Hc, Hd, Hl, renderImageHistory_closed_form. repeat split.
Qed.

(** X10. A session that starts over a store whose history text is not
    empty and is not JSON, and whose custom-key flag is absent, not JSON
    or a JSON boolean, has a page after load: it starts with an empty
    history, no rendered item and the history section hidden; the
    failure is logged first of all to the console and the stored text is
    left in place. *)
Theorem startup_with_corrupt_history store text :
  store !! IMAGE_HISTORY_KEY = Some text ->
  truthy text = true ->
  JSON_parse text = None ->
  toggle_text_typed (store !! USE_CUSTOM_KEY_STORAGE_KEY) = true ->
  exists s,
    initialize store = Some s
    /\ imageHistory s = []
    /\ historyContainerEl s = []
    /\ imageHistorySection_display s = DisplayNone
    /\ localStorage s !! IMAGE_HISTORY_KEY = Some text
    /\ exists logged,
         effects s
         = ConsoleError (lit "Failed to load image history from local storage:")
           :: logged.
Proof.
  intros Hstored Htruthy Hparse Htoggle. unfold initialize, loadHistory.
  cbn [localStorage fresh_page]. rewrite Hstored, Htruthy, Hparse.
  cbn [mbind option_bind].
  match goal with
  | |- context [loadCustomApiKeySettings ?s0] =>
      destruct (loadCustomApiKeySettings_typed s0) as (s & Hload)
  end.
  { now rewrite (proj1 (renderImageHistory_store _)). }
  exists s. split; [exact Hload|].
  apply loadCustomApiKeySettings_frame in Hload.
  destruct Hload as (Hh & Hc & Hd & Hl & logged & He).
  rewrite Hh, Hc, Hd, Hl, He, renderImageHistory_closed_form.
  repeat split; [exact Hstored|].
  now exists logged.
Qed.

End PageLoad.

(** ** What holds on every page of a session *)

Section SessionInvariants.

Lemma generate_rendered env s :
  rendered s -> rendered (exec (generate env) s).
Proof.
  unfold rendered.
  destruct (generate_keeps_history env s) as (Hh & _ & Hc).
  now rewrite Hh, Hc.
Qed.

Lemma handle_rendered env ev s : rendered s -> rendered (handle env ev s).
Proof.
  intros Hr. destruct ev; cbn [handle]; try exact Hr.
  - unfold generateButton_click.
    destruct (negb (truthy (trim (prompt s)))); [exact Hr|].
    now apply generate_rendered.
  - unfold downloadButton_click, handleDownload.
    destruct (downloadLink s) as [link|]; [|exact Hr].
    destruct (truthy link); exact Hr.
  - destruct (historyContainerEl s !! i) as [item|]; [|exact Hr].
    unfold handleDownload. destruct (truthy _); exact Hr.
  - unfold clearHistoryButton_click, clearImageHistory, rendered.
    rewrite renderImageHistory_closed_form. reflexivity.
  - unfold apiKeyInputEl_input, clear_highlight, rendered. page_fields.
    rewrite (saveCustomApiKeySettings_frame env _). exact Hr.
  - unfold useCustomApiKeyCheckbox_change, clear_highlight, rendered.
    page_fields.
    rewrite (saveCustomApiKeySettings_frame env _). exact Hr.
Qed.

Lemma initialize_rendered store s : initialize store = Some s -> rendered s.
Proof.
  unfold initialize. intros Hinit.
  destruct (loadHistory (fresh_page store)) as [s1|]; [|discriminate].
  cbn [mbind option_bind] in Hinit.
  apply loadCustomApiKeySettings_frame in Hinit as (Hh & Hc & _).
  unfold rendered. rewrite Hh, Hc, renderImageHistory_closed_form.
  reflexivity.
Qed.

Lemma run_rendered events s : rendered s -> rendered (run events s).
Proof.
  revert s. induction events as [|[env ev] rest IH]; intros s Hr; [exact Hr|].
  cbn [run]. apply IH. now apply handle_rendered.
Qed.


(** X11. A session that starts over a typed store (the history text
    absent, empty, not JSON or the JSON of a list of entries; the
    custom-key flag absent, not JSON or a JSON boolean) has a page after
    load, and on that page and on the page after every sequence of
    events the history container shows exactly the history list, most
    recent entry first: no listener lets the two drift apart. *)
Theorem session_rendered store :
  typed_store store = true ->
  exists loaded,
    initialize store = Some loaded
    /\ forall events, rendered (run events loaded).
Proof.
  intros Htyped.
  destruct (proj1 (initialize_typed_store store) Htyped) as [loaded Hinit].
  exists loaded. split; [exact Hinit|].
  intros events. apply run_rendered. exact (initialize_rendered _ _ Hinit).
Qed.


End SessionInvariants.

(** ** Generation attempts *)

Section Attempts.

Context (env : Env).

Lemma api_calls_app l1 l2 : api_calls (l1 ++ l2) = api_calls l1 ++ api_calls l2.
Proof.
  induction l1 as [|e l1 IH]; [reflexivity|].
  destruct e; cbn; now rewrite IH.
Qed.

(** The [catch] block asks for the key dialog exactly for the messages
    it recognises. *)
Lemma classify_recognised message m :
  snd (classify env message m) = recognised env message.
Proof.
  unfold classify, recognised.
  destruct (includes message (lit "You exceeded your current quota"));
    [reflexivity|].
  destruct (includes message (lit "Requested entity was not found."));
    [reflexivity|].
  cbn [orb].
  now destruct (includes message (lit "API_KEY_INVALID")
                || includes message (lit "API key not valid")
                || includes (toLowerCase env message) (lit "permission denied")).
Qed.

(** The page and the calls at the end of a failed attempt. *)
Lemma failed_attempt_state s key m message :
  resolveActiveKey env s = (Some key, m) -> truthy key = true ->
  failure_message (generateImages env (request_of key s)) = Some message ->
  let s' := exec (generate env) s in
  effects s'
  = effects s
    ++ [GenerateImagesCall (request_of key s);
        ConsoleError (lit "Image generation failed:")]
    ++ corrective_calls env m (recognised env message)
  /\ statusEl s'
     = error_status
         (if negb m && recognised env message
             && negb (bool_decide (is_Some (aistudio env)))
          then NO_DIALOG_MESSAGE
          else fst (classify env message m))
  /\ apiKeyInputEl_classList s'
     = if m then (apiKeyInputEl_classList s ∖ highlight) ∪ highlight
       else apiKeyInputEl_classList s ∖ highlight.
Proof.
  intros Hkey Htruthy Hfail s'. subst s'.
  rewrite (generate_state _ _ _ _ Hkey Htruthy).
  rewrite <- (classify_recognised message m). unfold corrective_calls.
  run_script.
  change (mkRequest key _ _ _ _) with (request_of key s).
  destruct (generateImages env (request_of key s))
    as [[[|first others]|]|e]; try discriminate;
    injection Hfail as <-; cbn;
    destruct (classify env _ m) as [text [|]]; destruct m; cbn;
    try (destruct (aistudio env) as [[[|e']]|]; cbn);
    rewrite <- ?app_assoc; repeat split; reflexivity.
Qed.


Lemma classify_unrecognised message m :
  recognised env message = false ->
  classify env message m = (lit "Error: " ++ message, false).
Proof.
  unfold recognised, classify. intros H.
  repeat (apply orb_false_iff in H as [H ?]).
  rewrite H. repeat match goal with Hx : _ = false |- _ => rewrite Hx end.
  reflexivity.
Qed.

(** X12. When an attempt that reached the request fails, one request
    was sent; with the custom key in use the key input is focused and
    highlighted whatever the error is, and the key dialog is never
    opened; with the ambient key in use the input is neither focused nor
    highlighted, and the key dialog is opened exactly when the error
    message is one the script recognises and the environment has a
    dialog. *)
Theorem failed_attempt_correction (s : State) key m message :
  resolveActiveKey env s = (Some key, m) -> truthy key = true ->
  failure_message (generateImages env (request_of key s)) = Some message ->
  let s' := exec (generate env) s in
  exists new,
    effects s' = effects s ++ new
    /\ api_calls new = [request_of key s]
    /\ (ApiKeyInputFocus ∈ new <-> m = true)
    /\ (highlighted s' <-> m = true)
    /\ (OpenSelectKeyCall ∈ new
        <-> m = false /\ recognised env message = true
            /\ is_Some (aistudio env)).
Proof.
  intros Hkey Htruthy Hfail s'.
  destruct (failed_attempt_state s key m message Hkey Htruthy Hfail)
    as (Heff & _ & Hclass).
  fold s' in Heff, Hclass. eexists. split; [exact Heff|].
  unfold highlighted. rewrite Hclass. unfold corrective_calls.
  assert (Hclear : ~ highlight ⊆ apiKeyInputEl_classList s ∖ highlight).
  { unfold highlight. set_solver. }
  destruct m; cbn;
    [|destruct (recognised env message); cbn;
      [destruct (aistudio env) as [studio|]; cbn|]];
    repeat split; try done;
    try (intros; exfalso; set_solver);
    try (intros; set_solver);
    try (intros (? & ? & ?); done);
    try (intros (_ & _ & [? ?]); done).
Qed.

(** X13. When the failure message is none the script recognises, the
    status shows the raw message after [Error: ]; with the ambient key
    in use nothing else is done: no dialog, no focus, no highlight. *)
Theorem unrecognised_failure_shows_raw_message (s : State) key m message :
  resolveActiveKey env s = (Some key, m) -> truthy key = true ->
  failure_message (generateImages env (request_of key s)) = Some message ->
  recognised env message = false ->
  let s' := exec (generate env) s in
  statusEl s' = error_status (lit "Error: " ++ message)
  /\ (m = false ->
      effects s'
      = effects s
        ++ [GenerateImagesCall (request_of key s);
            ConsoleError (lit "Image generation failed:")]
      /\ ~ highlighted s').
Proof.
  intros Hkey Htruthy Hfail Hunknown s'.
  destruct (failed_attempt_state s key m message Hkey Htruthy Hfail)
    as (Heff & Hstatus & Hclass).
  fold s' in Heff, Hstatus, Hclass.
  rewrite Hunknown, andb_false_r in Hstatus. cbn in Hstatus.
  rewrite (classify_unrecognised _ m Hunknown) in Hstatus.
  split; [exact Hstatus|].
  intros ->. rewrite Hunknown in Heff. split; [exact Heff|].
  unfold highlighted. rewrite Hclass. unfold highlight. set_solver.
Qed.

(** X14. When the failure message mentions neither the quota nor a
    missing entity but carries [API_KEY_INVALID], [API key not valid]
    or, in any letter case, [permission denied], the status names the
    key at fault: the custom key when it was in use, the key managed by
    AI Studio otherwise (or, with no key dialog in the environment, the
    message that key selection is not available). *)
Theorem invalid_key_failure_names_the_key (s : State) key m message :
  resolveActiveKey env s = (Some key, m) -> truthy key = true ->
  failure_message (generateImages env (request_of key s)) = Some message ->
  includes message (lit "You exceeded your current quota") = false ->
  includes message (lit "Requested entity was not found.") = false ->
  includes message (lit "API_KEY_INVALID")
  || includes message (lit "API key not valid")
  || includes (toLowerCase env message) (lit "permission denied") = true ->
  statusEl (exec (generate env) s)
  = error_status
      (if m then CUSTOM_KEY_INVALID_MESSAGE
       else if bool_decide (is_Some (aistudio env))
            then STUDIO_KEY_INVALID_MESSAGE
            else NO_DIALOG_MESSAGE).
Proof.
  intros Hkey Htruthy Hfail Hquota Hentity Hinvalid.
  destruct (failed_attempt_state s key m message Hkey Htruthy Hfail)
    as (_ & Hstatus & _).
  rewrite Hstatus. f_equal.
  assert (Hrec : recognised env message = true).
  { unfold recognised. rewrite Hquota, Hentity. cbn [orb].
    now rewrite <- !orb_assoc in *. }
  assert (Hclass : classify env message m
                   = (if m then CUSTOM_KEY_INVALID_MESSAGE
                      else STUDIO_KEY_INVALID_MESSAGE, true)).
  { unfold classify. rewrite Hquota, Hentity, Hinvalid. reflexivity. }
  rewrite Hrec, Hclass. cbn.
  destruct m; [reflexivity|]. cbn.
  now destruct (bool_decide (is_Some (aistudio env))).
Qed.

(** X15. When the API answers with at least one image, the attempt
    ends with the success text in the status line, the first image
    displayed and stored as the download target, the download button
    shown, the busy indicator hidden and no highlight on the key input,
    having made one request and no other outside call; a click on the
    download button then saves that image as [generated-image.jpeg]. *)
Theorem successful_attempt_shows_image (s : State) key m first others :
  resolveActiveKey env s = (Some key, m) -> truthy key = true ->
  generateImages env (request_of key s)
  = ApiResolved (Some (first :: others)) ->
  let s' := exec (generate env) s in
  statusEl s' = InnerText (lit "Image generated successfully.")
  /\ outputImage_src s' = data_url first
  /\ outputImage_display s' = DisplayBlock
  /\ downloadButton_display s' = DisplayBlock
  /\ downloadLink s' = Some (data_url first)
  /\ loadingSpinner_display s' = DisplayNone
  /\ ~ highlighted s'
  /\ effects s' = effects s ++ [GenerateImagesCall (request_of key s)]
  /\ downloadButton_click s'
     = emit (AnchorClick (data_url first) (lit "generated-image.jpeg")) s'.
Proof.
  intros Hkey Htruthy Hapi s'.
  assert (Hstate :
            s' = setControlsDisabled false
                   (set_statusEl
                      (InnerText (lit "Image generated successfully."))
                      (set_downloadLink (Some (data_url first))
                         (set_downloadButton_display DisplayBlock
                            (set_outputImage_display DisplayBlock
                               (set_outputImage_src (data_url first)
                                  (emit (GenerateImagesCall (request_of key s))
                                     (begin_request (clear_highlight s))))))))).
  { subst s'. rewrite (generate_state _ _ _ _ Hkey Htruthy). run_script.
    change (mkRequest key _ _ _ _) with (request_of key s).
    now rewrite Hapi. }
  clearbody s'. subst s'.
  do 6 (split; [reflexivity|]).
  split; [|split; reflexivity].
  unfold highlighted. cbn. unfold highlight. set_solver.
Qed.

(** The requests a click on the generate button adds to those sent. *)
Lemma click_api_calls s :
  api_calls (effects (generateButton_click env s))
  = api_calls (effects s)
    ++ (if blank (prompt s) then []
        else if useCustomApiKey s && negb (blank (userApiKey s))
             then [request_of (trim (userApiKey s)) s]
             else match API_KEY env with
                  | Some key => if truthy key then [request_of key s] else []
                  | None => []
                  end).
Proof.
  assert (Hreq : forall key m,
             resolveActiveKey env s = (Some key, m) -> truthy key = true ->
             api_calls (effects (exec (generate env) s))
             = api_calls (effects s) ++ [request_of key s]).
  { intros key m Hkey Htruthy.
    destruct (failure_message (generateImages env (request_of key s)))
      as [message|] eqn:Hfail.
    - destruct (failed_attempt_state s key m message Hkey Htruthy Hfail)
        as (-> & _).
      rewrite !api_calls_app. cbn. unfold corrective_calls.
      destruct m; [reflexivity|].
      now destruct (recognised env message && _).
    - rewrite (generate_state _ _ _ _ Hkey Htruthy). run_script.
      change (mkRequest key _ _ _ _) with (request_of key s).
      destruct (generateImages env (request_of key s))
        as [[[|first others]|]|e]; try discriminate.
      cbn. now rewrite api_calls_app. }
  assert (Hnone : forall k m,
             resolveActiveKey env s = (k, m) -> truthy_opt k = false ->
             api_calls (effects (exec (generate env) s))
             = api_calls (effects s) ++ []).
  { intros k m Hkey Hfalsy. unfold exec.
    rewrite (generate_without_key _ _ _ _ Hkey Hfalsy), app_nil_r.
    run_script. destruct m; cbn;
      try (destruct (aistudio env) as [[[|e']]|]; cbn);
      rewrite ?api_calls_app; cbn; now rewrite ?app_nil_r. }
  unfold generateButton_click. rewrite truthy_trim.
  destruct (blank (prompt s)); cbn [negb]; [now rewrite app_nil_r|].
  assert (Hres : resolveActiveKey env s
                 = if useCustomApiKey s && negb (blank (userApiKey s))
                   then (Some (trim (userApiKey s)), true)
                   else (API_KEY env, false)).
  { unfold resolveActiveKey. now rewrite truthy_trim. }
  destruct (useCustomApiKey s && negb (blank (userApiKey s))) eqn:Hcustom.
  - apply andb_true_iff in Hcustom as [_ Hkey].
    apply (Hreq _ _ Hres). now rewrite truthy_trim.
  - destruct (API_KEY env) as [key|] eqn:Henv;
      [destruct (truthy key) eqn:Htruthy|].
    + exact (Hreq _ _ Hres Htruthy).
    + exact (Hnone _ _ Hres Htruthy).
    + exact (Hnone _ _ Hres eq_refl).
Qed.

(** X16. A click on the generate button sends at most one request, and
    none when the prompt is blank or no key is available.  The request
    carries the prompt as typed, the selected size and ratio, and as
    key the trimmed custom key when the box is ticked and the key is not
    blank, the ambient key otherwise; the key of a request is never
    empty. *)
Theorem click_sends_at_most_one_request (s : State) :
  let sent :=
    if blank (prompt s) then []
    else if useCustomApiKey s && negb (blank (userApiKey s))
         then [request_of (trim (userApiKey s)) s]
         else match API_KEY env with
              | Some key => if truthy key then [request_of key s] else []
              | None => []
              end in
  api_calls (effects (generateButton_click env s))
  = api_calls (effects s) ++ sent
  /\ (length sent <= 1)%nat
  /\ (forall req, req ∈ sent ->
        truthy (req_apiKey req) = true
        /\ req_prompt req = prompt s
        /\ req_imageSize req = imageSize s
        /\ req_aspectRatio req = aspectRatio s
        /\ req_model req = lit "imagen-4.0-generate-001").
Proof.
  intros sent. split; [apply click_api_calls|].
  subst sent.
  destruct (blank (prompt s));
    [split; [cbn; lia | intros req Hin; now apply elem_of_nil in Hin]|].
  destruct (useCustomApiKey s && negb (blank (userApiKey s))) eqn:Hcustom.
  - apply andb_true_iff in Hcustom as [_ Hkey].
    split; [cbn; lia|].
    intros req Hin. apply list_elem_of_singleton in Hin as ->.
    repeat split. cbn. now rewrite truthy_trim.
  - destruct (API_KEY env) as [key|];
      [destruct (truthy key) eqn:Htruthy|];
      (split; [cbn; lia|]); intros req Hin;
      try (now apply elem_of_nil in Hin).
    apply list_elem_of_singleton in Hin as ->. repeat split. exact Htruthy.
Qed.

(** X20. The request of a click carries what the user last typed and
    chose: after the prompt input, the size selector and the ratio
    selector have fired, a click on the generate button sends, when a key
    is available, one request with that prompt, that size and that
    ratio. *)
Theorem request_carries_latest_choices (s : State) p size ratio :
  blank p = false ->
  let s' := handle env GenerateClicked
              (handle env (AspectRatioChosen ratio)
                 (handle env (ImageSizeChosen size)
                    (handle env (PromptTyped p) s))) in
  api_calls (effects s')
  = api_calls (effects s)
    ++ match resolveActiveKey env s with
       | (Some key, _) =>
           if truthy key
           then [mkRequest key (lit "imagen-4.0-generate-001") p size ratio]
           else []
       | (None, _) => []
       end.
Proof.
  intros Hp s'. subst s'. cbn [handle].
  rewrite click_api_calls.
  unfold aspectRatioSelectEl_change, imageSizeSelectEl_change, promptEl_input.
  page_fields. rewrite Hp. f_equal.
  unfold resolveActiveKey. rewrite truthy_trim.
  destruct (useCustomApiKey s && negb (blank (userApiKey s))) eqn:Hcustom.
  - apply andb_true_iff in Hcustom as [_ Hkey].
    now rewrite truthy_trim, Hkey.
  - now destruct (API_KEY env) as [key|].
Qed.

(** X17. With the custom-key box unticked and no ambient key, an
    attempt sends no request and changes nothing on the page but the
    status line: it reports that no key is configured and opens the key
    dialog, or, in an environment without key dialog, reports that key
    selection is not available. *)
Theorem missing_ambient_key_asks_for_one (s : State) :
  useCustomApiKey s = false ->
  truthy_opt (API_KEY env) = false ->
  let s' := exec (generate env) s in
  s' = set_effects (effects s') (set_statusEl (statusEl s') s)
  /\ effects s'
     = effects s
       ++ (if bool_decide (is_Some (aistudio env))
           then [OpenSelectKeyCall] else [])
  /\ statusEl s'
     = error_status
         (if bool_decide (is_Some (aistudio env))
          then NO_KEY_MESSAGE else NO_DIALOG_MESSAGE).
Proof.
  intros Hoff Hnokey s'. subst s'.
  assert (Hres : resolveActiveKey env s = (API_KEY env, false)).
  { unfold resolveActiveKey. now rewrite Hoff. }
  unfold exec. rewrite (generate_without_key _ _ _ _ Hres Hnokey).
  run_script. cbn.
  destruct (aistudio env) as [[[|e']]|]; cbn;
    rewrite ?app_nil_r; repeat split; now destruct s.
Qed.

End Attempts.

(** ** Downloads from the history *)

Section HistoryDownloads.

Context (env : Env).



End HistoryDownloads.

(** ** The further properties at sample inputs *)

Lemma clearing_empties_history_witness :
  let env := Sample.env_with None None Sample.one_image in
  let s := set_imageHistory Sample.history (Sample.page (lit "a cat")) in
  imageHistory (clearHistoryButton_click env s) = []
  /\ localStorage (clearHistoryButton_click env s)
     = <[IMAGE_HISTORY_KEY := lit "[]"]> (localStorage s).
Proof.
  intros env s.
  destruct (clearing_empties_history env s) as (Hh & _ & _ & _ & Hstore).
  destruct (Hstore eq_refl) as (Hl & _).
  split; [exact Hh | exact Hl].
Defined.

Lemma render_lists_history_newest_first_witness :
  let s := set_imageHistory Sample.history (Sample.page (lit "a cat")) in
  historyContainerEl (renderImageHistory s)
  = [history_item (mkEntry (lit "data:image/jpeg;base64,REVG") (lit "a dog")
                     1700000000001%Z);
     history_item (mkEntry (lit "data:image/jpeg;base64,QUJD") (lit "a cat")
                     1700000000000%Z)].
Proof.
  intros s.
  destruct (render_lists_history_newest_first s) as (_ & Hfirst & _).
  exact (Hfirst [mkEntry (lit "data:image/jpeg;base64,QUJD") (lit "a cat")
                   1700000000000%Z]
           (mkEntry (lit "data:image/jpeg;base64,REVG") (lit "a dog")
              1700000000001%Z) eq_refl).
Defined.

Lemma adding_appends_and_persists_witness :
  let env := Sample.env_with None None Sample.one_image in
  let s := set_imageHistory Sample.history (Sample.page (lit "a cat")) in
  let s' := addImageToHistory env (lit "data:image/jpeg;base64,R0hJ")
              (lit "a bird") s in
  exists s'',
    loadHistory (fresh_page (localStorage s')) = Some s''
    /\ imageHistory s''
       = Sample.history
         ++ [mkEntry (lit "data:image/jpeg;base64,R0hJ") (lit "a bird")
               1700000000000%Z].
Proof.
  intros env s s'.
  destruct (adding_appends_and_persists env s
              (lit "data:image/jpeg;base64,R0hJ") (lit "a bird"))
    as (_ & _ & _ & Hstore).
  exact (Hstore eq_refl).
Defined.

Lemma clearing_survives_full_store_witness :
  let s := set_imageHistory Sample.history (Sample.page (lit "a cat")) in
  imageHistory (clearHistoryButton_click Sample.full_store_env s) = []
  /\ localStorage (clearHistoryButton_click Sample.full_store_env s)
     = localStorage s.
Proof.
  intros s.
  destruct (clearing_survives_full_store Sample.full_store_env s eq_refl)
    as (Hh & _ & Hl & _).
  split; [exact Hh | exact Hl].
Defined.

Lemma saved_key_settings_load_back_witness :
  let env := Sample.env_with None None Sample.one_image in
  let s := Sample.page_custom (lit "a cat") (lit " my-key ") in
  exists s',
    loadCustomApiKeySettings
      (fresh_page (localStorage (saveCustomApiKeySettings env s))) = Some s'
    /\ userApiKey s' = lit " my-key "
    /\ useCustomApiKey s' = true.
Proof.
  intros env s.
  destruct (saved_key_settings_load_back env s eq_refl eq_refl)
    as (s' & Hload & Hkey & _ & Htoggle & _).
  exists s'. split; [exact Hload|]. split; [exact Hkey | exact Htoggle].
Defined.

Lemma corrupt_toggle_resets_key_settings_witness :
  exists s',
    loadCustomApiKeySettings (fresh_page Sample.corrupt_store) = Some s'
    /\ userApiKey s' = []
    /\ useCustomApiKey s' = false
    /\ disabled ApiKeyInput s' = true.
Proof.
  destruct (corrupt_toggle_resets_key_settings
              (fresh_page Sample.corrupt_store) (lit "yes") eq_refl eq_refl)
    as (s' & Hload & Hkey & _ & Htoggle & _ & Hdisabled & _).
  exists s'. split; [exact Hload|].
  split; [exact Hkey|]. split; [exact Htoggle | exact Hdisabled].
Defined.

Lemma typed_key_is_written_through_witness :
  let env := Sample.env_with None None Sample.one_image in
  let s' := apiKeyInputEl_input env (lit " my-key ")
              (Sample.page (lit "a cat")) in
  userApiKey s' = lit " my-key "
  /\ localStorage s' !! CUSTOM_API_KEY_STORAGE_KEY = Some (lit " my-key ").
Proof.
  intros env s'.
  destruct (typed_key_is_written_through env (Sample.page (lit "a cat"))
              (lit " my-key ")) as (Hkey & _ & _ & _ & _ & _ & Hstore).
  split; [exact Hkey | exact (proj1 (Hstore eq_refl eq_refl))].
Defined.

Lemma toggled_box_is_written_through_witness :
  let env := Sample.env_with None None Sample.one_image in
  let s' := useCustomApiKeyCheckbox_change env true
              (Sample.page (lit "a cat")) in
  disabled ApiKeyInput s' = false
  /\ localStorage s' !! USE_CUSTOM_KEY_STORAGE_KEY = Some (lit "true").
Proof.
  intros env s'.
  destruct (toggled_box_is_written_through env (Sample.page (lit "a cat")) true)
    as (_ & _ & Hdisabled & _ & _ & _ & Hstore).
  split; [exact Hdisabled | exact (proj2 (Hstore eq_refl eq_refl))].
Defined.

Lemma startup_restores_history_witness :
  exists s,
    initialize Sample.store = Some s
    /\ imageHistory s = Sample.history
    /\ historyContainerEl s = map history_item (rev Sample.history)
    /\ imageHistorySection_display s = DisplayBlock.
Proof.
  destruct (startup_restores_history Sample.store Sample.history
              eq_refl eq_refl) as (s & Hinit & Hh & Hc & Hd & _).
  exists s. split; [exact Hinit|]. split; [exact Hh|].
  split; [exact Hc | exact Hd].
Defined.

Lemma startup_with_corrupt_history_witness :
  exists s,
    initialize Sample.corrupt_store = Some s
    /\ imageHistory s = []
    /\ localStorage s !! IMAGE_HISTORY_KEY = Some (lit "[{oops").
Proof.
  destruct (startup_with_corrupt_history Sample.corrupt_store (lit "[{oops")
              eq_refl eq_refl eq_refl eq_refl)
    as (s & Hinit & Hh & _ & _ & Hl & _).
  exists s. split; [exact Hinit|]. split; [exact Hh | exact Hl].
Defined.

Lemma session_rendered_witness :
  let env := Sample.env_with (Some (lit "env-key")) None Sample.one_image in
  typed_store Sample.store = true
  /\ exists loaded,
       initialize Sample.store = Some loaded
       /\ rendered (handle env GenerateClicked
                      (handle env (PromptTyped (lit "a cat")) loaded)).
Proof.
  intros env. split; [reflexivity|].
  destruct (session_rendered Sample.store eq_refl) as (loaded & Hinit & Hall).
  exists loaded. split; [exact Hinit|].
  exact (Hall [(env, PromptTyped (lit "a cat")); (env, GenerateClicked)]).
Defined.


Lemma failed_attempt_correction_witness :
  let env := Sample.env_with (Some (lit "env-key")) (Some Sample.studio)
               Sample.invalid_key_error in
  let s := Sample.page (lit "a cat") in
  exists new,
    effects (exec (generate env) s) = effects s ++ new
    /\ OpenSelectKeyCall ∈ new
    /\ ~ highlighted (exec (generate env) s).
Proof.
  intros env s.
  destruct (failed_attempt_correction env s (lit "env-key") false
              (lit "403 PERMISSION DENIED for this key")
              eq_refl eq_refl eq_refl)
    as (new & Heff & _ & _ & Hhigh & Hdialog).
  exists new. split; [exact Heff|]. split.
  - apply Hdialog. split; [reflexivity|]. split; [reflexivity|].
    now eexists.
  - intros H. apply Hhigh in H. discriminate H.
Defined.

Lemma unrecognised_failure_shows_raw_message_witness :
  let env := Sample.env_with (Some (lit "env-key")) (Some Sample.studio)
               Sample.no_images in
  let s := Sample.page (lit "a cat") in
  statusEl (exec (generate env) s)
  = error_status (lit "Error: " ++ NO_IMAGES_MESSAGE)
  /\ effects (exec (generate env) s)
     = effects s
       ++ [GenerateImagesCall (request_of (lit "env-key") s);
           ConsoleError (lit "Image generation failed:")].
Proof.
  intros env s.
  destruct (unrecognised_failure_shows_raw_message env s (lit "env-key") false
              NO_IMAGES_MESSAGE eq_refl eq_refl eq_refl eq_refl)
    as (Hstatus & Hambient).
  split; [exact Hstatus | exact (proj1 (Hambient eq_refl))].
Defined.

Lemma invalid_key_failure_names_the_key_witness :
  let env := Sample.env_with (Some (lit "env-key")) (Some Sample.studio)
               Sample.invalid_key_error in
  statusEl (exec (generate env)
              (Sample.page_custom (lit "a cat") (lit " my-key ")))
  = error_status CUSTOM_KEY_INVALID_MESSAGE
  /\ statusEl (exec (generate env) (Sample.page (lit "a cat")))
     = error_status STUDIO_KEY_INVALID_MESSAGE.
Proof.
  intros env. split.
  - exact (invalid_key_failure_names_the_key env
             (Sample.page_custom (lit "a cat") (lit " my-key "))
             (lit "my-key") true (lit "403 PERMISSION DENIED for this key")
             eq_refl eq_refl eq_refl eq_refl eq_refl eq_refl).
  - exact (invalid_key_failure_names_the_key env
             (Sample.page (lit "a cat"))
             (lit "env-key") false (lit "403 PERMISSION DENIED for this key")
             eq_refl eq_refl eq_refl eq_refl eq_refl eq_refl).
Defined.

Lemma successful_attempt_shows_image_witness :
  let env := Sample.env_with (Some (lit "env-key")) None Sample.two_images in
  let s' := exec (generate env) (Sample.page (lit "a cat")) in
  downloadLink s' = Some (lit "data:image/jpeg;base64,QUJD")
  /\ effects (downloadButton_click s')
     = [GenerateImagesCall (request_of (lit "env-key")
                              (Sample.page (lit "a cat")));
        AnchorClick (lit "data:image/jpeg;base64,QUJD")
          (lit "generated-image.jpeg")].
Proof.
  intros env s'.
  destruct (successful_attempt_shows_image env (Sample.page (lit "a cat"))
              (lit "env-key") false (mkImage (lit "QUJD"))
              [mkImage (lit "REVG")] eq_refl eq_refl eq_refl)
    as (_ & _ & _ & _ & Hlink & _ & _ & Heff & Hclick).
  split; [exact Hlink|].
  fold env in Hclick, Heff. fold s' in Hclick, Heff.
  rewrite Hclick. cbn [effects emit set_effects]. rewrite Heff. reflexivity.
Defined.

Lemma click_sends_at_most_one_request_witness :
  let env := Sample.env_with (Some (lit "env-key")) None Sample.one_image in
  let s := Sample.page_custom (lit " a cat ") (lit " my-key ") in
  api_calls (effects (generateButton_click env s))
  = [mkRequest (lit "my-key") (lit "imagen-4.0-generate-001") (lit " a cat ")
       Size1K Ratio1x1].
Proof.
  intros env s.
  exact (proj1 (click_sends_at_most_one_request env s)).
Defined.

Lemma missing_ambient_key_asks_for_one_witness :
  let env := Sample.env_with None (Some Sample.studio) Sample.one_image in
  let s := Sample.page (lit "a cat") in
  effects (exec (generate env) s) = [OpenSelectKeyCall]
  /\ statusEl (exec (generate env) s) = error_status NO_KEY_MESSAGE.
Proof.
  intros env s.
  destruct (missing_ambient_key_asks_for_one env s eq_refl eq_refl)
    as (_ & Heff & Hstatus).
  split; [exact Heff | exact Hstatus].
Defined.


Lemma request_carries_latest_choices_witness :
  let env := Sample.env_with (Some (lit "env-key")) None Sample.one_image in
  let s' := handle env GenerateClicked
              (handle env (AspectRatioChosen Ratio16x9)
                 (handle env (ImageSizeChosen Size4K)
                    (handle env (PromptTyped (lit "a cat"))
                       (Sample.page [])))) in
  api_calls (effects s')
  = [mkRequest (lit "env-key") (lit "imagen-4.0-generate-001") (lit "a cat")
       Size4K Ratio16x9].
Proof.
  intros env s'.
  exact (request_carries_latest_choices env (Sample.page []) (lit "a cat")
           Size4K Ratio16x9 eq_refl).
Defined.
